(** * gwf: backend scheduling and the SGE scheduler plugin

    A shallow embedding of [gwf/backends/base.py] (the [Backend] base class
    with its dependency-walking [schedule]) and of [gwf/backends/sge.py]
    (the [SGEOps] plugin: script compilation, submission, status polling),
    followed by the properties of both that the specification states. *)

From Stdlib Require Import ZArith Ascii String DecimalString.
From Stdlib Require DecimalPos.
From stdpp Require Import base decidable countable strings list gmap sets
  relations.

Local Open Scope string_scope.
Local Open Scope Z_scope.
Local Open Scope list_scope.

(** ** Python values, exceptions and targets *)

(** The exceptions the modelled code can raise.  [Other] stands for whatever
    an implementation of an abstract method or an external command raises
    ([SubmissionError], [BackendError], ...). *)
Inductive exn : Type :=
  | WorkflowNotPreparedError
  | KeyError (key : string)
  | ValueError
  | TypeError
  | ZeroDivisionError
  | AttributeError
  | AssertionError
  | Other (what : string).

#[global] Instance exn_eq_dec : EqDecision exn.
Proof. solve_decision. Defined.

(** ** gwf/core.py: targets *)

Module Core.

(** An option value of a target: [cores] is an int, [memory] and [walltime]
    are strings, [queue] and [account] default to [None].  Values of other
    Python types (a float, say) are outside the model. *)
Inductive value : Type :=
  | VInt (n : Z)
  | VStr (s : string)
  | VNone.

(** A target as the two modules use it: [target.name], [target.options] (a
    dict, in insertion order), [target.working_dir] and [target.spec]. *)
Record Target : Type := mkTarget {
  name : string;
  options : list (string * value);
  working_dir : string;
  spec : string;
}.

#[global] Instance value_eq_dec : EqDecision value.
Proof. solve_decision. Defined.

#[global] Instance value_countable : Countable value.
Proof.
  refine (inj_countable'
    (fun v => match v with
              | VInt n => inl n
              | VStr s => inr (Some s)
              | VNone => inr None
              end)
    (fun c => match c with
              | inl n => VInt n
              | inr (Some s) => VStr s
              | inr None => VNone
              end) _).
  by intros [].
Defined.

#[global] Instance Target_eq_dec : EqDecision Target.
Proof. solve_decision. Defined.

#[global] Instance Target_countable : Countable Target.
Proof.
  refine (inj_countable'
    (fun t => (name t, options t, working_dir t, spec t))
    (fun c => match c with (n, o, w, s) => mkTarget n o w s end) _).
  by intros [].
Defined.

End Core.

Export Core.

(** [d[key]] on a dict kept as an association list. *)
Fixpoint assoc {V : Type} (key : string) (d : list (string * V)) : option V :=
  match d with
  | [] => None
  | (k, v) :: d' => if decide (k = key) then Some v else assoc key d'
  end.

(** [sep.join(parts)]. *)
Fixpoint str_join (sep : string) (parts : list string) : string :=
  match parts with
  | [] => ""
  | [p] => p
  | p :: ps => (p ++ sep ++ str_join sep ps)%string
  end.

(** The result of a call: a value, or an exception on its way up. *)
Inductive outcome (A : Type) : Type :=
  | Return (a : A)
  | Raise (e : exn).
Arguments Return {A} a.
Arguments Raise {A} e.

#[global] Instance outcome_ret : MRet outcome := fun A (a : A) => Return a.

#[global] Instance outcome_bind : MBind outcome :=
  fun A B (k : A -> outcome B) (m : outcome A) =>
    match m with
    | Return a => k a
    | Raise e => Raise e
    end.

(** The double quote, for the messages and script lines that contain one. *)
Definition dquote : string := String "034"%char EmptyString.

(** The line feed. *)
Definition newline : string := String "010"%char EmptyString.

(** ** The dependency walk *)

Module Utils.

(** A workflow's [dependencies]: a dict from a target to the list of the
    targets it depends on.  Looking up a target that has no entry gives the
    empty list. *)
Definition dependencies_of (dependencies : gmap Target (list Target))
    (node : Target) : list Target :=
  default [] (dependencies !! node).

(** The state of one walk: the [visited] set and the [path] built so far. *)
Definition walk_state : Type := gset Target * list Target.

(** A [for] loop whose body may run out of fuel. *)
Fixpoint for_each {A St : Type} (body : A -> St -> option St) (l : list A)
    (st : St) : option St :=
  match l with
  | [] => Some st
  | x :: l' =>
      match body x st with
      | Some st' => for_each body l' st'
      | None => None
      end
  end.

(** Modelled from the spec: [gwf.utils.dfs], which [schedule] imports and
    whose source is not part of the files at hand.  The specification
    describes it as a depth-first traversal of the transitive dependency set
    in post-order (a dependency is considered before the targets that need
    it), with the requested target itself as the final element.  [dfs_inner]
    is the recursive visit: a node already in [visited] is left alone;
    otherwise it is marked, its dependencies are visited in order, and the
    node is appended to [path].  [fuel] bounds the recursion depth; [None]
    means it ran out. *)
Fixpoint dfs_inner (fuel : nat) (dependencies : gmap Target (list Target))
    (node : Target) (st : walk_state) : option walk_state :=
  match fuel with
  | O => None
  | S fuel' =>
      if decide (node ∈ st.1) then Some st
      else
        match for_each (dfs_inner fuel' dependencies)
                (dependencies_of dependencies node) ({[node]} ∪ st.1, st.2) with
        | Some st' => Some (st'.1, st'.2 ++ [node])
        | None => None
        end
  end.

Definition dfs_fuel (fuel : nat) (root : Target)
    (dependencies : gmap Target (list Target)) : option (list Target) :=
  snd <$> dfs_inner fuel dependencies root (∅, []).

(** Every nested visit marks a fresh target that has an entry in
    [dependencies], except possibly the innermost one, so one more than the
    number of entries is depth enough ([dfs_fuel_enough] below). *)
Definition dfs (root : Target) (dependencies : gmap Target (list Target))
    : list Target :=
  default [] (dfs_fuel (S (size dependencies)) root dependencies).

End Utils.

(** ** gwf/backends/base.py *)

Module Base.

Inductive level : Type := DEBUG | INFO | WARNING.

(** What a call of [schedule] does to the outside, in order: log records and
    the calls of [submitted], [should_run] and [submit]. *)
Inductive event : Type :=
  | Log (lvl : level) (msg : string)
  | CallSubmitted (target : Target)
  | CallShouldRun (target : Target)
  | CallSubmit (target : Target).

(** [PreparedWorkflow], as far as a backend reads it. *)
Record PreparedWorkflow : Type := mkWorkflow {
  targets : list (string * Target);
  dependencies : gmap Target (list Target);
  should_run : Target -> bool;
}.

(** What [__init__] is handed: a prepared workflow or anything else. *)
Inductive workflow_arg : Type :=
  | Prepared (workflow : PreparedWorkflow)
  | NotPrepared.

(** The abstract part of [Backend] that [__init__] and [schedule] use.  [St]
    is the state a concrete backend tracks its submissions in.
    [supported_options] is [None] for a subclass that keeps the base
    property, whose body is only a docstring. *)
Class Backend (St : Type) : Type := {
  backend_name : string;
  supported_options : option (list string);
  submitted : St -> Target -> bool;
  submit : St -> Target -> St * option exn;
}.

(** A computation over the backend's state that records its events. *)
Definition M (St A : Type) : Type := St -> outcome A * St * list event.

#[global] Instance M_ret {St} : MRet (M St) :=
  fun A (a : A) st => (Return a, st, []).

#[global] Instance M_bind {St} : MBind (M St) :=
  fun A B (k : A -> M St B) (m : M St A) st =>
    match m st with
    | (Return a, st', tr) =>
        match k a st' with
        | (r, st'', tr') => (r, st'', tr ++ tr')
        end
    | (Raise e, st', tr) => (Raise e, st', tr)
    end.

Definition emit {St} (ev : event) : M St unit :=
  fun st => (Return tt, st, [ev]).

Definition logger_debug {St} (msg : string) : M St unit := emit (Log DEBUG msg).
Definition logger_info {St} (msg : string) : M St unit := emit (Log INFO msg).

Section Schedule.

Context {St : Type} `{Backend St}.
Variable workflow : PreparedWorkflow.

Definition self_submitted (target : Target) : M St bool :=
  fun st => (Return (submitted st target), st, [CallSubmitted target]).

Definition workflow_should_run (target : Target) : M St bool :=
  fun st => (Return (should_run workflow target), st, [CallShouldRun target]).

Definition self_submit (target : Target) : M St unit :=
  fun st =>
    match submit st target with
    | (st', None) => (Return tt, st', [CallSubmit target])
    | (st', Some e) => (Raise e, st', [CallSubmit target])
    end.

(** The body of [schedule]'s [for dependency in dfs(...)] loop, over the
    targets still to visit; [scheduled] is the list built so far. *)
Fixpoint schedule_loop (target : Target) (walk : list Target)
    (scheduled : list Target) : M St (list Target) :=
  match walk with
  | [] => mret scheduled
  | dependency :: walk' =>
      logger_info ("Scheduling dependency " ++ name dependency ++ " of "
                   ++ name target) ;;
      is_submitted ← self_submitted dependency;
      if (is_submitted : bool) then
        logger_debug ("Target " ++ name dependency
                      ++ " has already been submitted.") ;;
        schedule_loop target walk' scheduled
      else
        runs ← workflow_should_run dependency;
        if negb (runs : bool) then
          logger_debug ("Target " ++ name dependency ++ " should not run.") ;;
          schedule_loop target walk' scheduled
        else
          logger_info ("Submitting dependency " ++ name dependency) ;;
          self_submit dependency ;;
          schedule_loop target walk' (scheduled ++ [dependency])
  end.

Definition schedule (target : Target) : M St (list Target) :=
  logger_debug ("Scheduling target " ++ name target ++ ".") ;;
  is_submitted ← self_submitted target;
  if (is_submitted : bool) then
    logger_debug ("Target " ++ name target ++ " has already been submitted.") ;;
    mret []
  else
    schedule_loop target (Utils.dfs target (dependencies workflow)) [].

Fixpoint schedule_many_loop (targets : list Target)
    (schedules : list (list Target)) : M St (list (list Target)) :=
  match targets with
  | [] => mret schedules
  | target :: targets' =>
      s ← schedule target;
      schedule_many_loop targets' (schedules ++ [s])
  end.

Definition schedule_many (targets : list Target) : M St (list (list Target)) :=
  schedule_many_loop targets [].

End Schedule.

(** The targets [submit] was called on, in call order. *)
Definition submit_calls (tr : list event) : list Target :=
  omap (fun ev => match ev with CallSubmit t => Some t | _ => None end) tr.

(** The option names of all targets of the workflow: the set comprehension
    at the start of [__init__]. *)
Definition all_options (workflow : PreparedWorkflow) : gset string :=
  list_to_set (t ← (targets workflow).*2; (options t).*1).

Section Init.

Context {St : Type} `{Backend St}.

Definition unsupported_warning (option_name : string) : event :=
  Log WARNING ("Backend " ++ dquote ++ backend_name ++ dquote
               ++ " does not support option " ++ dquote ++ option_name
               ++ dquote ++ ".").

(** The loop [for option_name in all_options] of [__init__], over the names
    still to check.  [option_name not in self.supported_options] is a
    [TypeError] when the property gives [None]. *)
Fixpoint warn_unsupported (option_names : list string)
    : outcome unit * list event :=
  match option_names with
  | [] => (Return tt, [])
  | option_name :: rest =>
      match supported_options with
      | None => (Raise TypeError, [])
      | Some supported =>
          let warned :=
            if decide (option_name ∈ supported) then []
            else [unsupported_warning option_name] in
          match warn_unsupported rest with
          | (r, tr) => (r, warned ++ tr)
          end
      end
  end.

(** [Backend.__init__]: the workflow the new backend is bound to
    ([self.workflow]), or the exception, and the log records emitted. *)
Definition __init__ (workflow : workflow_arg)
    : outcome PreparedWorkflow * list event :=
  match workflow with
  | NotPrepared => (Raise WorkflowNotPreparedError, [])
  | Prepared w =>
      match warn_unsupported (elements (all_options w)) with
      | (Return _, tr) => (Return w, tr)
      | (Raise e, tr) => (Raise e, tr)
      end
  end.

(** The base class's [option_defaults]. *)
Definition option_defaults : list (string * value) := [].

End Init.

End Base.

(** ** gwf/backends/sge.py *)

Module SGE.

(** Modelled from the spec: [BackendStatus], which [sge.py] imports from
    [.base]; the specification gives it as the enumeration [UNKNOWN],
    [SUBMITTED], [RUNNING]. *)
Inductive BackendStatus : Type := UNKNOWN | SUBMITTED | RUNNING.

#[global] Instance BackendStatus_eq_dec : EqDecision BackendStatus.
Proof. solve_decision. Defined.

Definition TARGET_DEFAULTS : list (string * value) :=
  [ ("cores", VInt 1);
    ("memory", VStr "1g");
    ("walltime", VStr "01:00:00");
    ("queue", VNone);
    ("account", VNone) ].

Definition OPTION_FLAGS : list (string * string) :=
  [ ("cores", "-pe smp ");
    ("memory", "-l h_vmem=");
    ("walltime", "-l h_rt=");
    ("queue", "-q ");
    ("account", "-P ") ].

(** *** Strings *)

Definition is_digit (c : ascii) : bool :=
  ((48 <=? nat_of_ascii c) && (nat_of_ascii c <=? 57))%nat.

Fixpoint filter_chars (keep : ascii -> bool) (s : string) : string :=
  match s with
  | EmptyString => EmptyString
  | String c s' =>
      if keep c then String c (filter_chars keep s') else filter_chars keep s'
  end.

(** [re.sub(r"[^0-9]+", "", s)]: every run of non-digits is deleted. *)
Definition strip_non_digits (s : string) : string := filter_chars is_digit s.

(** [re.sub(r"[0-9]+", "", s)]: every run of digits is deleted. *)
Definition strip_digits (s : string) : string :=
  filter_chars (fun c => negb (is_digit c)) s.

Fixpoint digits_value (acc : Z) (s : string) : Z :=
  match s with
  | EmptyString => acc
  | String c s' => digits_value (10 * acc + (Z.of_nat (nat_of_ascii c) - 48)) s'
  end.

(** [int(s)] for a string of decimal digits; the empty string is a
    [ValueError]. *)
Definition int_of_digits (s : string) : outcome Z :=
  match s with
  | EmptyString => Raise ValueError
  | _ => Return (digits_value 0 s)
  end.

(** [str(n)] for an int. *)
Definition str_of_int (n : Z) : string := NilZero.string_of_int (Z.to_int n).

(** What [str.format] puts in place of a [{}] for an option value. *)
Definition format_value (v : value) : string :=
  match v with
  | VInt n => str_of_int n
  | VStr s => s
  | VNone => "None"
  end.

(** [c in s] for a one-character string [c]. *)
Fixpoint char_in (c : ascii) (s : string) : bool :=
  match s with
  | EmptyString => false
  | String c' s' => if decide (c' = c) then true else char_in c s'
  end.

Fixpoint ends_with_slash (s : string) : bool :=
  match s with
  | EmptyString => false
  | String c EmptyString => if decide (c = "/"%char) then true else false
  | String _ s' => ends_with_slash s'
  end.

(** One step of [os.path.join] (POSIX): a component that starts with a
    slash replaces what came before. *)
Definition path_join_step (path b : string) : string :=
  if String.prefix "/" b then b
  else if decide (path = "") then (path ++ b)%string
  else if ends_with_slash path then (path ++ b)%string
  else (path ++ "/" ++ b)%string.

Definition os_path_join (a : string) (p : list string) : string :=
  foldl path_join_step a p.

(** Modelled from the spec: [gwf.utils.ensure_trailing_newline], imported
    by [sge.py]; the specification asks for the target body with a
    guaranteed trailing newline. *)
Fixpoint ends_with_newline (s : string) : bool :=
  match s with
  | EmptyString => false
  | String c EmptyString => if decide (c = "010"%char) then true else false
  | String _ s' => ends_with_newline s'
  end.

Definition ensure_trailing_newline (s : string) : string :=
  if ends_with_newline s then s else (s ++ newline)%string.

(** *** External commands *)

(** One use of [gwf.backends.utils.call]: the executable, its arguments and
    what is fed to its standard input. *)
Record invocation : Type := mkInvocation {
  exe : string;
  args : list string;
  input : option string;
}.

(** A [job_list] element of [qstat]'s XML: what [find] gives for its
    [JB_job_number] and [state] children ([None] when there is no such child)
    and inside that the child's [text] ([None] when it has none). *)
Record job_list : Type := mkJob {
  JB_job_number : option (option string);
  state : option (option string);
}.

#[global] Instance invocation_eq_dec : EqDecision invocation.
Proof. solve_decision. Defined.

#[global] Instance job_list_eq_dec : EqDecision job_list.
Proof. solve_decision. Defined.

(** A computation that records the external commands it runs. *)
Definition IO (A : Type) : Type := outcome A * list invocation.

#[global] Instance IO_ret : MRet IO := fun A (a : A) => (Return a, []).

#[global] Instance IO_bind : MBind IO :=
  fun A B (k : A -> IO B) (m : IO A) =>
    match m with
    | (Return a, tr) => match k a with (r, tr') => (r, tr ++ tr') end
    | (Raise e, tr) => (Raise e, tr)
    end.

Definition lift {A} (r : outcome A) : IO A := (r, []).

Record SGEOps : Type := mkSGEOps {
  working_dir : string;
  target_defaults : list (string * value);
}.

Definition option_str (flag val : string) : string :=
  ("#$ " ++ flag ++ val)%string.

Definition dict_get {V} (d : list (string * V)) (key : string) : outcome V :=
  match assoc key d with
  | Some v => Return v
  | None => Raise (KeyError key)
  end.

(** [number // cores] for what [target.options["cores"]] holds, over the
    values of the model: an int divides, zero raising; a string and [None]
    are a [TypeError]. *)
Definition floor_div (number : Z) (cores : value) : outcome Z :=
  match cores with
  | VInt 0 => Raise ZeroDivisionError
  | VInt c => Return (number / c)
  | _ => Raise TypeError
  end.

(** The conversion of the [memory] option to a per-core amount. *)
Definition memory_per_core (target : Target) (option_value : value)
    : outcome string :=
  match option_value with
  | VStr text =>
      number ← int_of_digits (strip_non_digits text);
      let unit := strip_digits text in
      cores ← dict_get (options target) "cores";
      per_core ← floor_div number cores;
      mret (str_of_int per_core ++ unit)%string
  | _ => Raise TypeError
  end.

(** The body of [for option_name, option_value in target.options.items()],
    over the items still to come; the result is what the loop appends to
    [out]. *)
Fixpoint option_lines (target : Target) (items : list (string * value))
    : outcome (list string) :=
  match items with
  | [] => mret []
  | (option_name, option_value) :: rest =>
      shown ←
        (if decide (option_name = "memory")
         then memory_per_core target option_value
         else mret (format_value option_value));
      flag ← dict_get OPTION_FLAGS option_name;
      more ← option_lines target rest;
      mret (option_str flag shown :: more)
  end.

(** The list [out] of [compile_script] just before it is joined. *)
Definition script_lines (self : SGEOps) (target : Target)
    : outcome (list string) :=
  directives ← option_lines target (options target);
  mret
    ([ "#!/bin/bash";
       "# Generated by: gwf";
       option_str "-N " (name target);
       "#$ -V";
       "#$ -w v";
       "#$ -cwd" ]
     ++ directives
     ++ [ option_str "-o "
            (os_path_join (working_dir self)
               [".gwf"; "logs"; (name target ++ ".stdout")%string]);
          option_str "-e "
            (os_path_join (working_dir self)
               [".gwf"; "logs"; (name target ++ ".stderr")%string]);
          "";
          ("cd " ++ Core.working_dir target)%string;
          "export GWF_JOBID=$SGE_JOBID";
          ("export GWF_TARGET_NAME=" ++ dquote ++ name target ++ dquote)%string;
          "set -e";
          "";
          ensure_trailing_newline (spec target) ]).

Definition compile_script (self : SGEOps) (target : Target) : outcome string :=
  out ← script_lines self target;
  mret (str_join newline out).

(** The state-code heuristics of [get_job_states]. *)
Definition job_state_of (state : string) : BackendStatus :=
  if char_in "d" state || char_in "E" state then UNKNOWN
  else if char_in "r" state || char_in "t" state || char_in "s" state
       then RUNNING
  else SUBMITTED.

(** The body of [for job in root.iter("job_list")], over the elements still
    to come. *)
Fixpoint job_states_loop (jobs : list job_list)
    (job_states : gmap string BackendStatus)
    : outcome (gmap string BackendStatus) :=
  match jobs with
  | [] => Return job_states
  | job :: jobs' =>
      match JB_job_number job with
      | None => Raise AttributeError
      | Some job_id =>
          match state job with
          | None => Raise AttributeError
          | Some st =>
              match job_id, st with
              | None, _ => Raise AssertionError
              | Some _, None => Raise AssertionError
              | Some job_id, Some st =>
                  job_states_loop jobs' (<[job_id := job_state_of st]> job_states)
              end
          end
      end
  end.

Section Ops.

(** [gwf.backends.utils.call] runs the command and gives its output. *)
Variable call : invocation -> outcome string.

(** [ElementTree.fromstring] followed by [root.iter("job_list")]: the
    [job_list] elements of the document, in document order. *)
Variable job_lists_of_xml : string -> outcome (list job_list).

Definition run (inv : invocation) : IO string := (call inv, [inv]).

Definition cancel_job (self : SGEOps) (job_id : string) : IO string :=
  run (mkInvocation "qdel" [job_id] None).

Definition submit_target (self : SGEOps) (target : Target)
    (dependencies : list string) : IO string :=
  script ← lift (compile_script self target);
  let args := ["-terse"] in
  let args :=
    match dependencies with
    | [] => args
    | _ => (args ++ ["-hold_jid"]) ++ [str_join "," dependencies]
    end in
  run (mkInvocation "qsub" args (Some script)).

Definition get_job_states (self : SGEOps) (tracked_jobs : list string)
    : IO (gmap string BackendStatus) :=
  xml ← run (mkInvocation "qstat" ["-f"; "-xml"] None);
  jobs ← lift (job_lists_of_xml xml);
  lift (job_states_loop jobs ∅).

End Ops.

End SGE.

(** ** Notions the properties are stated with *)

Module Graph.

(** [edge g x d]: target [x] depends on target [d]. *)
Definition edge (g : gmap Target (list Target)) (x d : Target) : Prop :=
  d ∈ Utils.dependencies_of g x.

(** No target depends, directly or through others, on itself. *)
Definition acyclic (g : gmap Target (list Target)) : Prop :=
  ∀ x, ¬ tc (edge g) x x.

(** [precedes l d x]: [d] occurs in [l] at an earlier position than [x]. *)
Definition precedes (l : list Target) (d x : Target) : Prop :=
  ∃ l1 l2 l3, l = l1 ++ d :: l2 ++ x :: l3.

(** Every dependency of a listed target is listed before it. *)
Definition ordered (g : gmap Target (list Target)) (l : list Target) : Prop :=
  ∀ x d, x ∈ l → edge g x d → precedes l d x.

(** The path only holds visited targets, each once. *)
Definition wf_state (st : Utils.walk_state) : Prop :=
  (∀ x, x ∈ st.2 → x ∈ st.1) ∧ NoDup st.2.

(** Visited but not yet on the path: the targets whose visit is under way. *)
Definition gray (st : Utils.walk_state) (a : Target) : Prop :=
  a ∈ st.1 ∧ a ∉ st.2.

(** What visiting the targets [ds] in turn makes of a walk state. *)
Definition visit_post (g : gmap Target (list Target)) (ds : list Target)
    (st st' : Utils.walk_state) : Prop :=
  wf_state st'
  ∧ st.1 ⊆ st'.1
  ∧ (∀ d, d ∈ ds → d ∈ st'.1)
  ∧ st.2 `prefix_of` st'.2
  ∧ (∀ a, gray st' a ↔ gray st a)
  ∧ (acyclic g → (∀ a d, gray st a → d ∈ ds → tc (edge g) a d) →
     ordered g st.2 → ordered g st'.2).

(** A check that every dependency has a smaller rank than what needs it. *)
Definition ranked (g : gmap Target (list Target)) (rank : Target → nat) : bool :=
  forallb (fun entry => forallb (fun d => rank d <? rank entry.1)%nat entry.2)
    (map_to_list g).

End Graph.

Module Listing.

(** [line] is a whole line of [script], with a line before and after it. *)
Definition contains_line (script line : string) : Prop :=
  ∃ pre post, script = (pre ++ newline ++ line ++ newline ++ post)%string.

(** The [job_list] element of a job whose number and state are both there. *)
Definition job_of (entry : string * string) : SGE.job_list :=
  SGE.mkJob (Some (Some entry.1)) (Some (Some entry.2)).

(** The characters of a string. *)
Definition chars (s : string) : list ascii := list_ascii_of_string s.

(** What one well-formed entry of the listing does to [job_states]. *)
Definition record_state (m : gmap string SGE.BackendStatus)
    (entry : string * string) : gmap string SGE.BackendStatus :=
  <[entry.1 := SGE.job_state_of entry.2]> m.

(** A [memory] value that [compile_script] can convert for [target]: a
    string with a digit in it, with [cores] a non-zero int. *)
Definition convertible (target : Target) (v : value) : Prop :=
  ∃ text c,
    v = VStr text
    ∧ SGE.strip_non_digits text ≠ ""
    ∧ assoc "cores" (options target) = Some (VInt c)
    ∧ c ≠ 0.

(** Where the logs of a workflow whose directory is [wd] go. *)
Definition log_dir (wd : string) : string :=
  (wd
   ++ (if decide (wd = "") then ""
       else if SGE.ends_with_slash wd then "" else "/")
   ++ ".gwf/logs/")%string.

(** The value of a call that returned. *)
Definition returned (r : outcome string) : string :=
  match r with
  | Return s => s
  | Raise _ => ""
  end.

End Listing.

(** ** A small workflow and a backend that tracks submissions in a list *)

Module Example.

Definition index : Target :=
  mkTarget "index" [("cores", VInt 2); ("memory", VStr "1g")]
    "/data" "bwa index ref.fa".

Definition align : Target :=
  mkTarget "align"
    [("cores", VInt 4); ("memory", VStr "8g"); ("walltime", VStr "02:00:00")]
    "/data" "bwa mem ref.fa reads.fq".

Definition report : Target :=
  mkTarget "report" [("cores", VInt 1); ("nodes", VInt 1)]
    "/data" "samtools flagstat aligned.bam".

(** [report] needs [align], which needs [index]; [index] is up to date. *)
Definition workflow : Base.PreparedWorkflow :=
  Base.mkWorkflow
    [("index", index); ("align", align); ("report", report)]
    (list_to_map [(align, [index]); (report, [align])])
    (fun t => negb (bool_decide (t = index))).

(** The tracked state is the list of the submitted targets. *)
#[global] Instance listed : Base.Backend (list Target) := {|
  Base.backend_name := "listed";
  Base.supported_options :=
    Some ["cores"; "memory"; "walltime"; "queue"; "account"];
  Base.submitted st t := bool_decide (t ∈ st);
  Base.submit st t := (t :: st, None);
|}.

Definition rank (t : Target) : nat :=
  if decide (t = report) then 2%nat
  else if decide (t = align) then 1%nat
  else 0%nat.

Definition ops : SGE.SGEOps := SGE.mkSGEOps "/home/user/project" SGE.TARGET_DEFAULTS.

(** A scheduler that lists three jobs, one of them twice. *)
Definition listing : list (string * string) :=
  [("101", "r"); ("102", "qw"); ("103", "Eqw"); ("102", "hqw")].

Definition call (inv : SGE.invocation) : outcome string :=
  if decide (SGE.exe inv = "qstat") then Return "<job_info/>"
  else Return "104".

Definition job_lists_of_xml (xml : string) : outcome (list SGE.job_list) :=
  Return (Listing.job_of <$> listing).

End Example.

(** Nothing is left for [schedule] to do for [target] in state [st]: it is
    submitted, or every target of its walk is submitted or up to date. *)
Definition settled {St : Type} `{Base.Backend St}
    (workflow : Base.PreparedWorkflow) (st : St) (target : Target) : Prop :=
  Base.submitted st target = true
  ∨ ∀ d, d ∈ Utils.dfs target (Base.dependencies workflow) →
      Base.submitted st d = true ∨ Base.should_run workflow d = false.

(** The state that the [submit] calls on [calls], made one after the other
    from [st], leave. *)
Definition replay {St : Type} `{Base.Backend St} (st : St)
    (calls : list Target) : St :=
  foldl (fun s d => (Base.submit s d).1) st calls.

(** ** More targets and backends to try the properties on *)

Module Trial.

(** A backend whose scheduler refuses [report]. *)
Definition refusing : Base.Backend (list Target) := {|
  Base.backend_name := "refusing";
  Base.supported_options := Some ["cores"; "memory"];
  Base.submitted st t := bool_decide (t ∈ st);
  Base.submit st t :=
    if decide (t = Example.report) then (st, Some (Other "qsub: rejected"))
    else (t :: st, None);
|}.

(** A backend that submits through the SGE plugin's [submit_target]. *)
Definition through_sge : Base.Backend (list Target) := {|
  Base.backend_name := "sge";
  Base.supported_options :=
    Some ["cores"; "memory"; "walltime"; "queue"; "account"];
  Base.submitted st t := bool_decide (t ∈ st);
  Base.submit st t :=
    match (SGE.submit_target Example.call Example.ops t []).1 with
    | Return _ => (t :: st, None)
    | Raise e => (st, Some e)
    end;
|}.

Definition odd_memory : Target :=
  mkTarget "stats" [("cores", VInt 2); ("memory", VStr "9g")] "/data" "wc -l reads.fq".

(** A backend that keeps the base class's [supported_options]. *)
Definition bare : Base.Backend (list Target) := {|
  Base.backend_name := "bare";
  Base.supported_options := None;
  Base.submitted st t := bool_decide (t ∈ st);
  Base.submit st t := (t :: st, None);
|}.

(** One core, and the queue left at its default. *)
Definition sort : Target :=
  mkTarget "sort" [("cores", VInt 1); ("memory", VStr "4g"); ("queue", VNone)]
    "/data" "samtools sort aligned.bam".

Definition memory_as_int : Target :=
  mkTarget "stats" [("cores", VInt 2); ("memory", VInt 8)] "/data" "wc -l reads.fq".

Definition memory_without_number : Target :=
  mkTarget "stats" [("cores", VInt 2); ("memory", VStr "g")] "/data" "wc -l reads.fq".

Definition memory_alone : Target :=
  mkTarget "stats" [("memory", VStr "8g")] "/data" "wc -l reads.fq".

Definition no_cores : Target :=
  mkTarget "stats" [("cores", VInt 0); ("memory", VStr "8g")] "/data" "wc -l reads.fq".

Definition cores_as_text : Target :=
  mkTarget "stats" [("cores", VStr "2"); ("memory", VStr "8g")] "/data" "wc -l reads.fq".

Definition minus_cores : Target :=
  mkTarget "stats" [("cores", VInt (-3)); ("memory", VStr "8g")] "/data" "wc -l reads.fq".

(** A listing whose second element has no state. *)
Definition broken_jobs : list SGE.job_list :=
  (Listing.job_of <$> [("101", "r")])
  ++ SGE.mkJob (Some (Some "102")) None :: [Listing.job_of ("103", "qw")].

Definition broken_job_lists_of_xml (xml : string) : outcome (list SGE.job_list) :=
  Return broken_jobs.

End Trial.

(** * Properties *)

(** ** The dependency walk *)

Section DfsFacts.

Import Utils Graph.

Variable g : gmap Target (list Target).

Lemma for_each_weaken {A St} (body body' : A -> St -> option St) l st st' :
  (∀ x s s', body x s = Some s' → body' x s = Some s') →
  for_each body l st = Some st' → for_each body' l st = Some st'.
Proof.
  intros Hb. revert st. induction l as [|x l IH]; intros st; simpl; [done|].
  destruct (body x st) as [s1|] eqn:E; [|done].
  rewrite (Hb _ _ _ E). apply IH.
Qed.

(** More fuel does not change a result. *)
Lemma dfs_inner_fuel_S fuel node st st' :
  dfs_inner fuel g node st = Some st' →
  dfs_inner (S fuel) g node st = Some st'.
Proof.
  revert node st st'. induction fuel as [|fuel IH]; intros node st st'; [done|].
  intros Hrun. simpl in Hrun. change (dfs_inner (S (S fuel)) g node st) with
    (if decide (node ∈ st.1) then Some st
     else match for_each (dfs_inner (S fuel) g) (dependencies_of g node)
                  ({[node]} ∪ st.1, st.2) with
          | Some st' => Some (st'.1, st'.2 ++ [node])
          | None => None
          end).
  destruct (decide (node ∈ st.1)); [done|].
  destruct (for_each (dfs_inner fuel g) _ _) as [s1|] eqn:E; [|done].
  by rewrite (for_each_weaken _ (dfs_inner (S fuel) g) _ _ _ IH E).
Qed.

Lemma dfs_inner_fuel_le fuel fuel' node st st' :
  (fuel ≤ fuel')%nat →
  dfs_inner fuel g node st = Some st' →
  dfs_inner fuel' g node st = Some st'.
Proof.
  induction 1 as [|fuel' _ IH]; [done|].
  intros Hrun. by apply dfs_inner_fuel_S, IH.
Qed.

(** A visit only adds to the visited set. *)
Lemma dfs_inner_visited_mono fuel node st st' :
  dfs_inner fuel g node st = Some st' → st.1 ⊆ st'.1.
Proof.
  revert node st st'. induction fuel as [|fuel IH]; intros node st st'; [done|].
  simpl. destruct (decide (node ∈ st.1)); [by intros [= <-]|].
  destruct (for_each _ _ _) as [s1|] eqn:E; [|done]. intros [= <-]. simpl.
  assert (∀ l s s', for_each (dfs_inner fuel g) l s = Some s' → s.1 ⊆ s'.1)
    as Hloop.
  { induction l as [|x l IHl]; intros s s'; simpl; [by intros [= <-]|].
    destruct (dfs_inner fuel g x s) as [s2|] eqn:E2; [|done].
    intros Hl. apply IH in E2. apply IHl in Hl. set_solver. }
  apply Hloop in E. simpl in E. set_solver.
Qed.

(** The walk returns: fuel beyond the number of unvisited targets that have
    an entry in [dependencies] is never used up. *)
Lemma dfs_inner_total fuel node st :
  (size (dom g ∖ st.1) < fuel)%nat → is_Some (dfs_inner fuel g node st).
Proof.
  revert node st. induction fuel as [|fuel IH]; intros node st Hsz; [lia|].
  simpl. destruct (decide (node ∈ st.1)) as [|Hfresh]; [by eexists|].
  assert (∀ l s, (l = [] ∨ (size (dom g ∖ s.1) < fuel)%nat) →
            is_Some (for_each (dfs_inner fuel g) l s)) as Hloop.
  { induction l as [|x l IHl]; intros s Hs; simpl; [by eexists|].
    destruct Hs as [|Hs]; [done|].
    destruct (IH x s Hs) as [s2 E2]. rewrite E2.
    apply IHl. right. apply dfs_inner_visited_mono in E2.
    eapply Nat.le_lt_trans; [|exact Hs].
    apply subseteq_size. set_solver. }
  destruct (Hloop (dependencies_of g node) ({[node]} ∪ st.1, st.2)) as [s1 E].
  - unfold dependencies_of. destruct (g !! node) as [ds|] eqn:Hg; [|by left].
    right. simpl. apply Nat.lt_le_trans with (size (dom g ∖ st.1)); [|lia].
    apply subset_size. apply elem_of_dom_2 in Hg. set_solver.
  - rewrite E. by eexists.
Qed.

(** [dfs] is the result of the fuelled walk for every fuel above the number
    of entries of [dependencies]. *)
Lemma dfs_fuel_enough fuel root :
  (size g < fuel)%nat → dfs_fuel fuel root g = Some (dfs root g).
Proof.
  intros Hfuel. unfold dfs, dfs_fuel.
  destruct (dfs_inner_total (S (size g)) root (∅, [])) as [st E].
  { simpl. rewrite difference_empty_L, size_dom. lia. }
  rewrite E. simpl.
  by rewrite (dfs_inner_fuel_le (S (size g)) fuel root _ st ltac:(lia) E).
Qed.

End DfsFacts.

Section DfsOrder.

Import Utils Graph.

Variable g : gmap Target (list Target).

Lemma precedes_app_r l k d x : precedes l d x → precedes (l ++ k) d x.
Proof.
  intros (l1 & l2 & l3 & ->). exists l1, l2, (l3 ++ k).
  by rewrite <- !app_assoc, <- !app_comm_cons, <- app_assoc.
Qed.

Lemma precedes_snoc l d x : d ∈ l → precedes (l ++ [x]) d x.
Proof.
  intros (l1 & l2 & ->)%list_elem_of_split. exists l1, l2, [].
  by rewrite <- app_assoc.
Qed.

Lemma ordered_prefix_elem l k x d :
  ordered g l → x ∈ l → edge g x d → precedes (l ++ k) d x.
Proof. intros Hord Hx Hd. by apply precedes_app_r, Hord. Qed.

Lemma visit_post_nil st : wf_state st → visit_post g [] st st.
Proof.
  intros Hwf. split; [done|]. split; [done|].
  split; [intros d Hd; by apply elem_of_nil in Hd|].
  split; [done|]. split; [done|]. by intros.
Qed.

Lemma visit_post_cons d ds st st1 st2 :
  visit_post g [d] st st1 → visit_post g ds st1 st2 →
  visit_post g (d :: ds) st st2.
Proof.
  intros (Hwf1 & Hsub1 & Hin1 & Hpre1 & Hgray1 & Hord1)
         (Hwf2 & Hsub2 & Hin2 & Hpre2 & Hgray2 & Hord2).
  split; [done|]. split; [set_solver|]. split.
  { intros d' [->|Hd']%elem_of_cons; [|by apply Hin2].
    apply Hsub2, Hin1. by left. }
  split; [by etrans|]. split.
  { intros a. by rewrite Hgray2, Hgray1. }
  intros Hacyc Hreach Hord. apply Hord2; [done| |].
  - intros a d' Ha Hd'. apply Hreach; [by apply Hgray1|by right].
  - apply Hord1; [done| |done].
    intros a d' Ha ->%list_elem_of_singleton. apply Hreach; [done|by left].
Qed.

(** The end of a visit: the dependencies of [node] have been visited from
    the state in which [node] was marked, and [node] joins the path. *)
Lemma visit_post_finish node st st1 :
  wf_state st → node ∉ st.1 →
  visit_post g (dependencies_of g node) ({[node]} ∪ st.1, st.2) st1 →
  visit_post g [node] st (st1.1, st1.2 ++ [node]).
Proof.
  intros [Hsub Hnodup] Hfresh (Hwf1 & Hsub1 & Hin1 & Hpre1 & Hgray1 & Hord1).
  simpl in *. destruct Hwf1 as [Hsub1' Hnodup1].
  assert (node ∉ st.2) as Hnode_path by (intros ?%Hsub; done).
  assert (gray st1 node) as [Hnode1 Hnode1'].
  { apply Hgray1. split; simpl; [set_solver|done]. }
  assert (∀ a, gray (st1.1, st1.2 ++ [node]) a ↔ gray st a) as Hgray.
  { intros a. unfold gray in *. simpl. rewrite not_elem_of_app.
    rewrite list_elem_of_singleton. specialize (Hgray1 a). simpl in Hgray1.
    split.
    - intros (Ha & Ha' & Hne). destruct Hgray1 as [[Hv Hp] _]; [done|].
      split; [set_solver|done].
    - intros [Ha Ha']. destruct Hgray1 as [_ [Hv Hp]]; [split; set_solver|].
      repeat split; try done. by intros ->. }
  split; [|split; [|split; [|split; [|split]]]]; simpl.
  - split; simpl.
    + intros x [Hx| ->%list_elem_of_singleton]%elem_of_app; [by apply Hsub1'|done].
    + apply NoDup_app. split; [done|]. split; [|apply NoDup_singleton].
      by intros x Hx ->%list_elem_of_singleton.
  - set_solver.
  - by intros d ->%list_elem_of_singleton.
  - by apply prefix_app_r.
  - done.
  - intros Hacyc Hreach Hord.
    assert (ordered g st1.2) as Hord1'.
    { apply Hord1; [done| |done].
      intros a d [Ha Ha'] Hd. simpl in *.
      apply elem_of_union in Ha as [->%elem_of_singleton|Ha].
      - by apply tc_once.
      - eapply tc_r; [|exact Hd]. apply Hreach; [by split|by left]. }
    intros x d [Hx|Hx%list_elem_of_singleton]%elem_of_app Hd.
    + by apply ordered_prefix_elem.
    + subst x. apply precedes_snoc. destruct (decide (d ∈ st1.2)) as [|Hd']; [done|].
      exfalso. assert (gray st1 d) as Hg by (split; [by apply Hin1|done]).
      apply Hgray1 in Hg as [Hdv Hdp]. simpl in *.
      apply elem_of_union in Hdv as [->%elem_of_singleton|Hdv].
      * by apply (Hacyc node), tc_once.
      * apply (Hacyc d). eapply tc_r; [|exact Hd].
        apply Hreach; [by split|by left].
Qed.

(** What one visit does, for any fuel that lets it return. *)
Lemma dfs_inner_spec fuel node st st' :
  dfs_inner fuel g node st = Some st' → wf_state st →
  visit_post g [node] st st'.
Proof.
  revert node st st'. induction fuel as [|fuel IH]; intros node st st'; [done|].
  simpl. destruct (decide (node ∈ st.1)) as [Hseen|Hfresh].
  { intros [= <-] Hwf. split; [done|]. split; [done|].
    split; [by intros d ->%list_elem_of_singleton|].
    split; [done|]. split; [done|]. by intros. }
  destruct (for_each _ _ _) as [st1|] eqn:E; [|done]. intros [= <-] Hwf.
  apply visit_post_finish; [done..|].
  assert (∀ ds s s', for_each (dfs_inner fuel g) ds s = Some s' →
            wf_state s → visit_post g ds s s') as Hloop.
  { induction ds as [|d ds IHds]; intros s s'; simpl.
    - intros [= <-]. apply visit_post_nil.
    - destruct (dfs_inner fuel g d s) as [s1|] eqn:E1; [|done].
      intros Hrest Hs. pose proof (IH _ _ _ E1 Hs) as Hd.
      eapply visit_post_cons; [exact Hd|]. apply IHds; [done|apply Hd]. }
  apply Hloop; [done|]. destruct Hwf as [Hsub Hnodup].
  split; simpl; [|done]. intros x Hx. apply Hsub in Hx. set_solver.
Qed.

(** The requested target closes the walk. *)
Lemma dfs_root_last root : ∃ before, dfs root g = before ++ [root].
Proof.
  pose proof (dfs_fuel_enough g (S (size g)) root ltac:(lia)) as Hrun.
  unfold dfs_fuel in Hrun. simpl in Hrun.
  destruct (decide (root ∈ (∅ : gset Target))) as [Hin|_]; [set_solver|].
  destruct (for_each _ _ _) as [st1|]; [|done].
  simpl in Hrun. injection Hrun as <-. by eexists.
Qed.

Lemma dfs_NoDup root : NoDup (dfs root g).
Proof.
  pose proof (dfs_fuel_enough g (S (size g)) root ltac:(lia)) as Hrun.
  unfold dfs_fuel in Hrun.
  destruct (dfs_inner _ _ _ _) as [st|] eqn:E; [|done].
  injection Hrun as <-. apply dfs_inner_spec in E as ([_ Hnodup] & _); [done|].
  split; [set_solver|apply NoDup_nil_2].
Qed.

(** Post-order: on an acyclic graph every dependency of a target of the
    walk comes before that target. *)
Lemma dfs_ordered root : acyclic g → ordered g (dfs root g).
Proof.
  intros Hacyc.
  pose proof (dfs_fuel_enough g (S (size g)) root ltac:(lia)) as Hrun.
  unfold dfs_fuel in Hrun.
  destruct (dfs_inner _ _ _ _) as [st|] eqn:E; [|done].
  injection Hrun as <-.
  apply dfs_inner_spec in E as (_ & _ & _ & _ & _ & Hord).
  - apply Hord; [done| |].
    + intros a d [Ha _]. set_solver.
    + intros x d Hx. by apply elem_of_nil in Hx.
  - split; [set_solver|apply NoDup_nil_2].
Qed.

End DfsOrder.

(** ** Scheduling *)

Section ScheduleFacts.

Import Utils Graph Base.

Context {St : Type} `{Backend St}.
Variable workflow : PreparedWorkflow.

Lemma submit_calls_app tr1 tr2 :
  submit_calls (tr1 ++ tr2) = submit_calls tr1 ++ submit_calls tr2.
Proof. apply omap_app. Qed.

(** One turn of the loop of [schedule], read off a run of it: the target is
    skipped as submitted, skipped as up to date, or submitted, in which case
    the loop goes on from the new state or the exception ends the run. *)
Lemma schedule_loop_step target d walk scheduled st r st' tr :
  schedule_loop workflow target (d :: walk) scheduled st = (r, st', tr) →
  ((submitted st d = true ∨
    (submitted st d = false ∧ should_run workflow d = false)) ∧
   ∃ tr0 tr1, tr = tr0 ++ tr1 ∧ submit_calls tr0 = [] ∧
     schedule_loop workflow target walk scheduled st = (r, st', tr1))
  ∨ (submitted st d = false ∧ should_run workflow d = true ∧
     ∃ st1 tr0, submit_calls tr0 = [d] ∧
       ((submit st d = (st1, None) ∧
         ∃ tr1, tr = tr0 ++ tr1 ∧
           schedule_loop workflow target walk (scheduled ++ [d]) st1
           = (r, st', tr1))
        ∨ (∃ e, submit st d = (st1, Some e) ∧
             r = Raise e ∧ st' = st1 ∧ tr = tr0))).
Proof.
  cbn [schedule_loop]. unfold mbind, M_bind, logger_info, logger_debug, emit,
    self_submitted, workflow_should_run, self_submit.
  destruct (submitted st d) eqn:Hsub.
  - destruct (schedule_loop workflow target walk scheduled st)
      as [[r1 s1] t1] eqn:E.
    intros [= <- <- <-]. left. split; [by left|].
    by eexists [_; _; _], t1.
  - destruct (should_run workflow d) eqn:Hrun; simpl.
    + destruct (submit st d) as [s1 [e|]] eqn:Esub.
      * intros [= <- <- <-]. right. split; [done|]. split; [done|].
        eexists s1, _. split; last first.
        { right. by eexists. }
        done.
      * destruct (schedule_loop workflow target walk (scheduled ++ [d]) s1)
          as [[r1 s2] t1] eqn:E.
        intros [= <- <- <-]. right. split; [done|]. split; [done|].
        eexists s1, [_; _; _; _; _]. split; last first.
        { left. split; [done|]. by eexists t1. }
        done.
    + destruct (schedule_loop workflow target walk scheduled st)
        as [[r1 s1] t1] eqn:E.
      intros [= <- <- <-]. left. split; [by right|].
      by eexists [_; _; _; _], t1.
Qed.

(** The submissions of a run of the loop, in order, are taken from the walk
    in its order, are all stale, and are what a returning run adds to
    [scheduled]. *)
Lemma schedule_loop_calls target walk scheduled st r st' tr :
  schedule_loop workflow target walk scheduled st = (r, st', tr) →
  submit_calls tr `sublist_of` walk
  ∧ Forall (fun d => should_run workflow d = true) (submit_calls tr)
  ∧ (∀ l, r = Return l → l = scheduled ++ submit_calls tr).
Proof.
  revert scheduled st tr. induction walk as [|d walk IH]; intros scheduled st tr.
  { intros [= <- <- <-]. simpl. split; [done|]. split; [done|].
    intros l [= <-]. by rewrite app_nil_r. }
  intros [(_ & tr0 & tr1 & -> & Hnone & Hrest)
         |(_ & Hrun & s1 & tr0 & Hone & [(_ & tr1 & -> & Hrest)
                                         |(e & _ & -> & _ & ->)])]%schedule_loop_step.
  - apply IH in Hrest as (Hsl & Hall & Hret).
    rewrite submit_calls_app, Hnone. simpl.
    split; [by apply sublist_cons|]. by split.
  - apply IH in Hrest as (Hsl & Hall & Hret).
    rewrite submit_calls_app, Hone. simpl.
    split; [by apply sublist_skip|]. split; [by constructor|].
    intros l Hl. rewrite (Hret l Hl), <- app_assoc. done.
  - rewrite Hone. split; [apply sublist_skip, sublist_nil_l|].
    split; [by repeat constructor|]. done.
Qed.

(** What a run of [schedule] is: the early return on a submitted target, or
    a run of the loop over the walk. *)
Lemma schedule_cases target st r st' tr :
  schedule workflow target st = (r, st', tr) →
  (submitted st target = true ∧ r = Return [] ∧ st' = st ∧ submit_calls tr = [])
  ∨ (submitted st target = false ∧
     ∃ tr0 tr1, tr = tr0 ++ tr1 ∧ submit_calls tr0 = [] ∧
       schedule_loop workflow target (dfs target (dependencies workflow)) [] st
       = (r, st', tr1)).
Proof.
  unfold schedule, mbind, M_bind, mret, M_ret, logger_debug, emit,
    self_submitted.
  destruct (submitted st target) eqn:Hsub.
  - intros [= <- <- <-]. by left.
  - destruct (schedule_loop _ _ _ _ _) as [[r1 s1] t1] eqn:E.
    intros [= <- <- <-]. right. split; [done|].
    by eexists [_; _], t1.
Qed.

(** The list [schedule] returns is the list of its [submit] calls. *)
Lemma schedule_returns_calls target st l st' tr :
  schedule workflow target st = (Return l, st', tr) → l = submit_calls tr.
Proof.
  intros [(_ & [= <-] & _ & ->)|(_ & tr0 & tr1 & -> & Hnone & Hloop)]%schedule_cases;
    [done|].
  apply schedule_loop_calls in Hloop as (_ & _ & Hret).
  rewrite submit_calls_app, Hnone. by apply Hret.
Qed.

Lemma schedule_calls_sublist target st r st' tr :
  schedule workflow target st = (r, st', tr) →
  submit_calls tr `sublist_of` dfs target (dependencies workflow)
  ∧ Forall (fun d => should_run workflow d = true) (submit_calls tr).
Proof.
  intros [(_ & _ & _ & ->)|(_ & tr0 & tr1 & -> & Hnone & Hloop)]%schedule_cases.
  - split; [apply sublist_nil_l|done].
  - apply schedule_loop_calls in Hloop as (Hsl & Hall & _).
    rewrite submit_calls_app, Hnone. by split.
Qed.

End ScheduleFacts.

Section PrecedesFacts.

Import Graph.

Lemma precedes_sublist_mono (l k : list Target) x d :
  l `sublist_of` k → precedes l x d → precedes k x d.
Proof.
  intros Hsub (l1 & l2 & l3 & ->).
  apply sublist_app_l in Hsub as (k1 & k2 & -> & _ & Hsub).
  apply sublist_cons_l in Hsub as (k2a & k2b & -> & Hsub).
  apply sublist_app_l in Hsub as (k3 & k4 & -> & _ & Hsub).
  apply sublist_cons_l in Hsub as (k4a & k4b & -> & _).
  exists (k1 ++ k2a), (k3 ++ k4a), k4b. by rewrite <- !app_assoc.
Qed.

Lemma precedes_lookup (k : list Target) d x :
  precedes k d x → ∃ i j, (i < j)%nat ∧ k !! i = Some d ∧ k !! j = Some x.
Proof.
  intros (l1 & l2 & l3 & ->).
  exists (length l1), (length l1 + S (length l2))%nat. split; [lia|]. split.
  - by rewrite list_lookup_middle.
  - rewrite lookup_app_r by lia.
    replace (length l1 + S (length l2) - length l1)%nat with (S (length l2)) by lia.
    simpl. by rewrite list_lookup_middle.
Qed.

Lemma precedes_antisym (k : list Target) d x :
  NoDup k → precedes k d x → precedes k x d → False.
Proof.
  intros Hnd (i & j & Hij & Hi & Hj)%precedes_lookup
             (i' & j' & Hij' & Hi' & Hj')%precedes_lookup.
  pose proof (NoDup_lookup _ _ _ _ Hnd Hi Hj').
  pose proof (NoDup_lookup _ _ _ _ Hnd Hj Hi'). lia.
Qed.

Lemma precedes_ne (k : list Target) d x : NoDup k → precedes k d x → d ≠ x.
Proof.
  intros Hnd (i & j & Hij & Hi & Hj)%precedes_lookup ->.
  pose proof (NoDup_lookup _ _ _ _ Hnd Hi Hj). lia.
Qed.

(** An order of a duplicate-free list is kept by what is picked from it. *)
Lemma precedes_sublist (l k : list Target) d x :
  NoDup k → l `sublist_of` k → precedes k d x → d ∈ l → x ∈ l →
  precedes l d x.
Proof.
  intros Hnd Hsub Hprec (a & b & ->)%list_elem_of_split Hx.
  pose proof (precedes_ne _ _ _ Hnd Hprec) as Hne.
  apply elem_of_app in Hx as [Hx|Hx].
  - exfalso. apply list_elem_of_split in Hx as (a1 & a2 & ->).
    apply (precedes_antisym k d x); [done..|].
    apply (precedes_sublist_mono _ _ _ _ Hsub).
    exists a1, a2, b. by rewrite <- app_assoc.
  - apply elem_of_cons in Hx as [->|Hx]; [done|].
    apply list_elem_of_split in Hx as (b1 & b2 & ->). by exists a, b1, b2.
Qed.

Lemma sublist_snoc_last (l b : list Target) t :
  NoDup (b ++ [t]) → l `sublist_of` b ++ [t] → t ∈ l →
  ∃ l', l = l' ++ [t].
Proof.
  intros Hnd (l1 & l2 & -> & H1 & H2)%sublist_app_r Ht.
  apply NoDup_app in Hnd as (_ & Hnot & _).
  inversion H2 as [|? ? ? H3|? ? ? H3]; subst.
  - apply sublist_nil_r in H3 as ->. by exists l1.
  - apply sublist_nil_r in H3 as ->. exfalso. rewrite app_nil_r in Ht.
    apply (Hnot t); [|by left]. by eapply elem_of_sublist.
Qed.

End PrecedesFacts.

Section ScheduleClaims.

Import Utils Graph Base.

Context {St : Type} `{Backend St}.
Variable workflow : PreparedWorkflow.

(** The early return of [schedule]. *)
Lemma schedule_submitted_run target st :
  submitted st target = true →
  schedule workflow target st
  = (Return [], st,
     [ Log DEBUG ("Scheduling target " ++ name target ++ ".");
       CallSubmitted target;
       Log DEBUG ("Target " ++ name target ++ " has already been submitted.") ]).
Proof.
  intros Hsub. unfold schedule, mbind, M_bind, self_submitted, logger_debug, emit.
  by rewrite Hsub.
Qed.

(** C8: when the requested target is already submitted, [schedule] returns
    the empty list at once.  The only calls it makes are one of [submitted],
    on the requested target, between two log records: no dependency is
    looked at, none is submitted, and the tracked state is as it was. *)
Theorem schedule_submitted_root target st :
  submitted st target = true →
  schedule workflow target st
  = (Return [], st,
     [ Log DEBUG ("Scheduling target " ++ name target ++ ".");
       CallSubmitted target;
       Log DEBUG ("Target " ++ name target ++ " has already been submitted.") ])
  ∧ submit_calls (schedule workflow target st).2 = [].
Proof.
  intros Hsub. rewrite (schedule_submitted_run _ _ Hsub). by split.
Qed.

(** C3: a target that [should_run] reports up to date is never handed to
    [submit] by [schedule] and is not in the list it returns, whether the
    call returns or is ended by an exception of [submit].  That holds for
    every target, so also for a visited one that is not submitted. *)
Theorem schedule_skips_up_to_date target st r st' tr d :
  should_run workflow d = false →
  schedule workflow target st = (r, st', tr) →
  (d ∉ submit_calls tr) ∧ (∀ l, r = Return l → d ∉ l).
Proof.
  intros Hstale Hrun.
  assert (d ∉ submit_calls tr) as Hnot.
  { apply schedule_calls_sublist in Hrun as [_ Hall].
    rewrite Forall_forall in Hall. intros Hd%Hall. congruence. }
  split; [done|]. intros l ->.
  by rewrite (schedule_returns_calls _ _ _ _ _ _ Hrun).
Qed.

(** C2: on an acyclic dependency graph, when one call of [schedule] submits
    a target [x] of the walk and a target [d] that [x] depends on, the
    [submit] call for [d] comes strictly before the one for [x]; each is
    submitted once, and the returned list is the list of the [submit] calls
    in call order.  The claim's case is [x] the requested target. *)
Theorem schedule_dependency_first target st r st' tr x d :
  acyclic (dependencies workflow) →
  edge (dependencies workflow) x d →
  schedule workflow target st = (r, st', tr) →
  x ∈ submit_calls tr → d ∈ submit_calls tr →
  precedes (submit_calls tr) d x
  ∧ NoDup (submit_calls tr)
  ∧ (∀ l, r = Return l → l = submit_calls tr).
Proof.
  intros Hacyc Hedge Hrun Hx Hd.
  pose proof (schedule_calls_sublist _ _ _ _ _ _ Hrun) as [Hsl _].
  pose proof (dfs_NoDup (dependencies workflow) target) as Hnd.
  split; [|split].
  - apply (precedes_sublist _ _ _ _ Hnd Hsl); [|done..].
    apply dfs_ordered; [done| |done]. by eapply elem_of_sublist.
  - by eapply sublist_NoDup.
  - intros l ->. by eapply schedule_returns_calls.
Qed.

(** Whatever the graph, the requested target is the last one submitted. *)
Lemma schedule_root_last target st r st' tr :
  schedule workflow target st = (r, st', tr) →
  target ∈ submit_calls tr → ∃ before, submit_calls tr = before ++ [target].
Proof.
  intros Hrun Ht.
  pose proof (schedule_calls_sublist _ _ _ _ _ _ Hrun) as [Hsl _].
  pose proof (dfs_NoDup (dependencies workflow) target) as Hnd.
  destruct (dfs_root_last (dependencies workflow) target) as [b Hb].
  rewrite Hb in Hsl, Hnd. by eapply sublist_snoc_last.
Qed.

(** *** Idempotence *)

(** What the specification expects of [submit] and [submitted]: a target
    whose submission went through counts as submitted, and a submission
    never makes a submitted target unsubmitted. *)
Hypothesis submit_marks : ∀ st t st',
  submit st t = (st', None) → submitted st' t = true.
Hypothesis submit_keeps : ∀ st t st' e t',
  submit st t = (st', e) → submitted st t' = true → submitted st' t' = true.

Lemma schedule_loop_keeps target walk scheduled st r st' tr t :
  schedule_loop workflow target walk scheduled st = (r, st', tr) →
  submitted st t = true → submitted st' t = true.
Proof.
  revert scheduled st tr. induction walk as [|d walk IH]; intros scheduled st tr.
  { by intros [= <- <- <-]. }
  intros [(_ & tr0 & tr1 & -> & _ & Hrest)
         |(_ & _ & s1 & tr0 & _ & [(Hsub & tr1 & -> & Hrest)
                                   |(e & Hsub & -> & -> & ->)])]%schedule_loop_step Ht.
  - by eapply IH.
  - eapply IH; [done|]. by eapply submit_keeps.
  - by eapply submit_keeps.
Qed.

(** After a run of the loop that returned, every target of the walk is
    submitted or up to date. *)
Lemma schedule_loop_settles target walk scheduled st l st' tr :
  schedule_loop workflow target walk scheduled st = (Return l, st', tr) →
  ∀ d, d ∈ walk → submitted st' d = true ∨ should_run workflow d = false.
Proof.
  revert scheduled st tr. induction walk as [|d walk IH]; intros scheduled st tr.
  { intros _ d Hd. by apply elem_of_nil in Hd. }
  intros [(Hskip & tr0 & tr1 & -> & _ & Hrest)
         |(_ & _ & s1 & tr0 & _ & [(Hsub & tr1 & -> & Hrest)
                                   |(e & _ & [=] & _)])]%schedule_loop_step
         d' [->|Hd']%elem_of_cons; try by eapply IH.
  - destruct Hskip as [Hs|[_ Hs]]; [left|by right].
    by eapply schedule_loop_keeps.
  - left. eapply schedule_loop_keeps; [done|]. by eapply submit_marks.
Qed.

(** Over targets that are all submitted or up to date the loop submits
    nothing and leaves the state alone. *)
Lemma schedule_loop_settled target walk scheduled st :
  (∀ d, d ∈ walk → submitted st d = true ∨ should_run workflow d = false) →
  ∃ tr, schedule_loop workflow target walk scheduled st
        = (Return scheduled, st, tr)
        ∧ submit_calls tr = [].
Proof.
  induction walk as [|d walk IH]; intros Hall.
  { by exists []. }
  destruct IH as (tr1 & Hrest & Hnone).
  { intros d' Hd'. apply Hall. by right. }
  cbn [schedule_loop]. unfold mbind, M_bind, logger_info, logger_debug, emit,
    self_submitted, workflow_should_run.
  destruct (submitted st d) eqn:Hsub.
  - rewrite Hrest. eexists. split; [reflexivity|]. simpl. exact Hnone.
  - destruct (Hall d) as [?|Hstale]; [by left|congruence|].
    rewrite Hstale. simpl. rewrite Hrest.
    eexists. split; [reflexivity|]. simpl. exact Hnone.
Qed.

(** C1: for a backend whose [submit] and [submitted] are as above, when
    [schedule] has returned, calling it again on the same target, from the
    state the first call left and with the same workflow (the same graph and
    the same [should_run] answers), returns the empty list, calls [submit] on
    nothing and leaves the state as it is. *)
Theorem schedule_idempotent target st l st1 tr1 :
  schedule workflow target st = (Return l, st1, tr1) →
  ∃ tr2, schedule workflow target st1 = (Return [], st1, tr2)
         ∧ submit_calls tr2 = [].
Proof.
  intros Hfirst.
  destruct (submitted st1 target) eqn:Hsub1.
  { eexists. split; [by apply schedule_submitted_run|done]. }
  assert (∀ d, d ∈ dfs target (dependencies workflow) →
            submitted st1 d = true ∨ should_run workflow d = false) as Hall.
  { apply schedule_cases in Hfirst
      as [(Hsub & _ & -> & _)|(_ & tr0 & tr1' & _ & _ & Hloop)].
    - congruence.
    - by eapply schedule_loop_settles. }
  destruct (schedule_loop_settled target _ [] st1 Hall) as (tr & Hloop & Hnone).
  unfold schedule, mbind, M_bind, logger_debug, emit, self_submitted.
  rewrite Hsub1, Hloop. eexists. split; [reflexivity|]. simpl. exact Hnone.
Qed.

End ScheduleClaims.

(** ** Construction *)

Section InitFacts.

Import Base.

Context {St : Type} `{Backend St}.

Lemma warn_unsupported_run supported option_names :
  supported_options = Some supported →
  warn_unsupported option_names
  = (Return tt,
     unsupported_warning <$> filter (fun k => k ∉ supported) option_names).
Proof.
  intros Hsup. induction option_names as [|k rest IH]; simpl; [done|].
  rewrite Hsup, IH. rewrite filter_cons.
  destruct (decide (k ∈ supported)) as [Hin|Hout].
  - by rewrite decide_False by (by intros ?).
  - by rewrite decide_True by done.
Qed.

Lemma elem_of_all_options w k :
  k ∈ all_options w ↔ ∃ t, t ∈ (targets w).*2 ∧ k ∈ (options t).*1.
Proof.
  unfold all_options. rewrite elem_of_list_to_set, list_elem_of_bind.
  naive_solver.
Qed.

(** What [__init__] does with a collection for [supported_options]. *)
Lemma init_warns_unsupported supported w :
  supported_options = Some supported →
  ∃ names,
    __init__ (Prepared w) = (Return w, unsupported_warning <$> names)
    ∧ NoDup names
    ∧ ∀ k, k ∈ names ↔
        (∃ t, t ∈ (targets w).*2 ∧ k ∈ (options t).*1) ∧ k ∉ supported.
Proof.
  intros Hsup.
  exists (filter (fun k => k ∉ supported) (elements (all_options w))).
  split; [|split].
  - unfold __init__. by rewrite (warn_unsupported_run supported).
  - apply NoDup_filter, NoDup_elements.
  - intros k. rewrite list_elem_of_filter, elem_of_elements, elem_of_all_options.
    tauto.
Qed.

(** With a [submit] that raises nothing the loop of [schedule] returns. *)
Lemma schedule_loop_returns w target walk scheduled st :
  (∀ st0 d, (submit st0 d).2 = None) →
  ∃ l st' tr, schedule_loop w target walk scheduled st = (Return l, st', tr).
Proof.
  intros Hok. revert scheduled st.
  induction walk as [|d walk IH]; intros scheduled st; [by eexists _, _, _|].
  cbn [schedule_loop]. unfold mbind, M_bind, logger_info, logger_debug, emit,
    self_submitted, workflow_should_run, self_submit.
  destruct (submitted st d).
  - destruct (IH scheduled st) as (l & st' & tr & ->). by eexists _, _, _.
  - destruct (should_run w d); simpl.
    + pose proof (Hok st d) as Hd. destruct (submit st d) as [s1 [e|]]; [done|].
      destruct (IH (scheduled ++ [d]) s1) as (l & st' & tr & ->).
      by eexists _, _, _.
    + destruct (IH scheduled st) as (l & st' & tr & ->). by eexists _, _, _.
Qed.

Lemma schedule_returns w target st :
  (∀ st0 d, (submit st0 d).2 = None) →
  ∃ l st' tr, schedule w target st = (Return l, st', tr).
Proof.
  intros Hok. unfold schedule, mbind, M_bind, logger_debug, emit, self_submitted.
  destruct (submitted st target); [by eexists _, _, _|].
  destruct (schedule_loop_returns w target (Utils.dfs target (dependencies w)) [] st Hok)
    as (l & st' & tr & ->).
  by eexists _, _, _.
Qed.


(** A subclass that keeps the base property cannot be constructed over a
    workflow with any option at all. *)
Lemma init_without_supported_options w k :
  supported_options = None → k ∈ all_options w →
  __init__ (Prepared w) = (Raise TypeError, []).
Proof.
  intros Hsup Hk%elem_of_elements. unfold __init__.
  destruct (elements (all_options w)) as [|k' rest]; [by apply elem_of_nil in Hk|].
  simpl. by rewrite Hsup.
Qed.

End InitFacts.

(** ** The SGE plugin *)

Section StringFacts.

Import SGE Listing.

Lemma string_app_assoc (a b c : string) :
  ((a ++ b) ++ c = a ++ b ++ c)%string.
Proof.
  induction a as [|x a IH]; [done|].
  change (String x ((a ++ b) ++ c) = String x (a ++ b ++ c))%string.
  by rewrite IH.
Qed.

Lemma join_cons_ne (sep p : string) (ps : list string) :
  ps ≠ [] → str_join sep (p :: ps) = (p ++ sep ++ str_join sep ps)%string.
Proof. by destruct ps. Qed.

Lemma join_app (sep : string) (ps qs : list string) :
  ps ≠ [] → qs ≠ [] →
  str_join sep (ps ++ qs) = (str_join sep ps ++ sep ++ str_join sep qs)%string.
Proof.
  intros Hps Hqs. induction ps as [|p ps IH]; [done|].
  destruct ps as [|p' ps].
  - simpl app. rewrite join_cons_ne by done. reflexivity.
  - rewrite <- app_comm_cons. rewrite join_cons_ne by done.
    rewrite IH by done. rewrite (join_cons_ne sep p (p' :: ps)) by done.
    by rewrite !string_app_assoc.
Qed.

(** An inner element of a joined list is a whole line of the result. *)
Lemma join_contains_line pre mid post x :
  pre ≠ [] → post ≠ [] → x ∈ mid →
  contains_line (str_join newline (pre ++ mid ++ post)) x.
Proof.
  intros Hpre Hpost (m1 & m2 & ->)%list_elem_of_split.
  exists (str_join newline (pre ++ m1)), (str_join newline (m2 ++ post)).
  replace (pre ++ (m1 ++ x :: m2) ++ post)
    with ((pre ++ m1) ++ [x] ++ (m2 ++ post))
    by (by rewrite <- !app_assoc).
  rewrite join_app; [|by destruct pre|by destruct m2, post].
  rewrite (join_app _ [x]); [|done|by destruct m2, post].
  done.
Qed.

Lemma char_in_chars c s : char_in c s = true ↔ c ∈ chars s.
Proof.
  unfold chars. induction s as [|c' s IH]; simpl.
  - split; [done|]. by intros ?%elem_of_nil.
  - rewrite elem_of_cons. destruct (decide (c' = c)) as [->|Hne].
    + split; [by left|done].
    + rewrite IH. naive_solver.
Qed.

Lemma assoc_lookup {V} (d : list (string * V)) k v :
  NoDup d.*1 → (k, v) ∈ d → assoc k d = Some v.
Proof.
  induction d as [|[k' v'] d IH]; simpl; [by intros _ ?%elem_of_nil|].
  intros [Hnot Hnd]%NoDup_cons [[= -> ->]|Hin]%elem_of_cons.
  - by rewrite decide_True.
  - rewrite decide_False; [by apply IH|].
    intros ->. apply Hnot. by apply (list_elem_of_fmap_2 fst) in Hin.
Qed.

Lemma assoc_is_Some {V} (d : list (string * V)) k :
  k ∈ d.*1 → is_Some (assoc k d).
Proof.
  induction d as [|[k' v'] d IH]; simpl; [by intros ?%elem_of_nil|].
  intros [->|Hin]%elem_of_cons.
  - rewrite decide_True by done. by eexists.
  - destruct (decide (k' = k)); [by eexists|by apply IH].
Qed.

End StringFacts.

Section CompileFacts.

Import SGE Listing.

Lemma memory_per_core_run target text c :
  assoc "cores" (options target) = Some (VInt c) → c ≠ 0 →
  strip_non_digits text ≠ "" →
  memory_per_core target (VStr text)
  = Return (str_of_int (digits_value 0 (strip_non_digits text) / c)
            ++ strip_digits text)%string.
Proof.
  intros Hcores Hc Hdigits. unfold memory_per_core, int_of_digits, dict_get.
  destruct (strip_non_digits text) as [|x digits] eqn:E; [done|].
  unfold mbind, outcome_bind. rewrite Hcores. unfold floor_div.
  by destruct c.
Qed.

(** The directive lines of a target whose option names all have a flag and
    whose [memory] values all convert. *)
Lemma option_lines_run target items :
  items.*1 ⊆ OPTION_FLAGS.*1 →
  (∀ v, ("memory", v) ∈ items → ∃ shown, memory_per_core target v = Return shown) →
  ∃ lines,
    option_lines target items = Return lines
    ∧ ∀ v shown, ("memory", v) ∈ items →
        memory_per_core target v = Return shown →
        option_str "-l h_vmem=" shown ∈ lines.
Proof.
  induction items as [|[k v] items IH]; intros Hflags Hmem.
  { exists []. split; [done|]. by intros v shown ?%elem_of_nil. }
  destruct IH as (more & Hmore & Hin).
  { intros k' Hk'. apply Hflags. by right. }
  { intros v' Hv'. apply Hmem. by right. }
  destruct (assoc_is_Some OPTION_FLAGS k) as [flag Hflag].
  { apply Hflags. by left. }
  cbn [option_lines]. unfold dict_get. rewrite Hflag.
  destruct (decide (k = "memory")) as [Heq|Hk].
  - subst k. destruct (Hmem v) as [shown Hshown]; [by left|].
    rewrite Hshown. unfold mbind, mret, outcome_bind, outcome_ret.
    fold (option_lines target items). rewrite Hmore. eexists. split; [done|].
    injection Hflag as <-.
    intros v' shown' [[= ->]|Hv']%elem_of_cons Hrun.
    + rewrite Hshown in Hrun. injection Hrun as <-. by left.
    + right. by eapply Hin.
  - unfold mbind, mret, outcome_bind, outcome_ret.
    fold (option_lines target items). rewrite Hmore. eexists. split; [done|].
    intros v' shown' [[= Hk' _]|Hv']%elem_of_cons Hrun; [congruence|].
    right. by eapply Hin.
Qed.

(** The [memory] directive of a compiled script. *)
Lemma compile_script_memory_line self target text c :
  NoDup (options target).*1 →
  (options target).*1 ⊆ OPTION_FLAGS.*1 →
  ("memory", VStr text) ∈ options target →
  ("cores", VInt c) ∈ options target →
  c ≠ 0 →
  strip_non_digits text ≠ "" →
  ∃ script,
    compile_script self target = Return script
    ∧ contains_line script
        ("#$ -l h_vmem="
         ++ str_of_int (digits_value 0 (strip_non_digits text) / c)
         ++ strip_digits text).
Proof.
  intros Hnd Hflags Hmem Hcores Hc Hdigits.
  pose proof (memory_per_core_run target text c
                (assoc_lookup _ _ _ Hnd Hcores) Hc Hdigits) as Hrun.
  destruct (option_lines_run target (options target) Hflags) as (lines & Hlines & Hin).
  { intros v Hv. assert (VStr text = v) as <-; [|by eexists].
    pose proof (assoc_lookup _ _ _ Hnd Hmem) as E1.
    pose proof (assoc_lookup _ _ _ Hnd Hv) as E2. congruence. }
  unfold compile_script, script_lines. rewrite Hlines.
  unfold mbind, mret, outcome_bind, outcome_ret.
  eexists. split; [reflexivity|].
  apply join_contains_line; [done|done|].
  by eapply Hin.
Qed.

End CompileFacts.

Section DecimalFacts.

Import SGE Listing.

Lemma string_app_cons x (a b : string) :
  (String x a ++ b)%string = String x (a ++ b)%string.
Proof. reflexivity. Qed.

Lemma string_app_nil_r (a : string) : (a ++ "")%string = a.
Proof.
  induction a as [|x a IH]; [done|]. by rewrite string_app_cons, IH.
Qed.

Lemma filter_chars_app keep (a b : string) :
  filter_chars keep (a ++ b) = (filter_chars keep a ++ filter_chars keep b)%string.
Proof.
  induction a as [|x a IH]; [done|].
  rewrite string_app_cons. simpl. destruct (keep x); [|done].
  by rewrite string_app_cons, IH.
Qed.

(** A string without digits is what is left when the digits are deleted. *)
Lemma strip_digits_id (unit : string) :
  strip_non_digits unit = "" → strip_digits unit = unit.
Proof.
  unfold strip_non_digits, strip_digits.
  induction unit as [|x unit IH]; simpl; [done|].
  destruct (is_digit x); simpl; [done|]. intros Hrest. by rewrite IH.
Qed.

Lemma string_of_uint_digits d :
  strip_non_digits (NilEmpty.string_of_uint d) = NilEmpty.string_of_uint d
  ∧ strip_digits (NilEmpty.string_of_uint d) = "".
Proof.
  unfold strip_non_digits, strip_digits.
  induction d as [|d [IH1 IH2]|d [IH1 IH2]|d [IH1 IH2]|d [IH1 IH2]|d [IH1 IH2]
                  |d [IH1 IH2]|d [IH1 IH2]|d [IH1 IH2]|d [IH1 IH2]|d [IH1 IH2]];
    [done|..]; cbn [NilEmpty.string_of_uint filter_chars];
    match goal with
    | |- context [is_digit ?c] => change (is_digit c) with true
    end; simpl; by rewrite IH1, IH2.
Qed.

Lemma digits_value_uint_acc d (acc : positive) :
  digits_value (Z.pos acc) (NilEmpty.string_of_uint d)
  = Z.pos (Pos.of_uint_acc d acc).
Proof.
  revert acc.
  induction d as [|d IH|d IH|d IH|d IH|d IH|d IH|d IH|d IH|d IH|d IH];
    intros acc; [done|..];
    cbn [NilEmpty.string_of_uint digits_value Pos.of_uint_acc];
    match goal with
    | |- digits_value ?a _ = Z.pos (Pos.of_uint_acc _ ?b) =>
        replace a with (Z.pos b) by (vm_compute Z.of_nat; lia)
    end; apply IH.
Qed.

Lemma digits_value_uint d :
  digits_value 0 (NilEmpty.string_of_uint d) = Z.of_N (Pos.of_uint d).
Proof.
  induction d as [|d IH|d IH|d IH|d IH|d IH|d IH|d IH|d IH|d IH|d IH];
    [done|exact IH|..];
    cbn [NilEmpty.string_of_uint digits_value Pos.of_uint];
    match goal with
    | |- digits_value ?a _ = Z.of_N (N.pos (Pos.of_uint_acc _ ?b)) =>
        change a with (Z.pos b)
    end; apply digits_value_uint_acc.
Qed.

(** [str] of a natural number is a string of digits, and [int] reads the
    number back from it. *)
Lemma str_of_int_digits n :
  0 ≤ n →
  strip_non_digits (str_of_int n) = str_of_int n
  ∧ strip_digits (str_of_int n) = ""
  ∧ str_of_int n ≠ ""
  ∧ digits_value 0 (str_of_int n) = n.
Proof.
  intros Hn. destruct n as [|p|p]; [done| |lia].
  unfold str_of_int. simpl Z.to_int. unfold NilZero.string_of_int, NilZero.string_of_uint.
  pose proof (DecimalPos.Unsigned.to_uint_nonnil p) as Hnil.
  pose proof (DecimalPos.Unsigned.of_to p) as Hof.
  destruct (string_of_uint_digits (Pos.to_uint p)) as [H1 H2].
  assert (digits_value 0 (NilEmpty.string_of_uint (Pos.to_uint p)) = Z.pos p)
    as Hval by (by rewrite digits_value_uint, Hof).
  destruct (Pos.to_uint p); done.
Qed.

(** Reading a memory value that is a printed number and a unit without
    digits gives the number and the unit back. *)
Lemma parse_printed_memory n (unit : string) :
  0 ≤ n → strip_non_digits unit = "" →
  strip_non_digits (str_of_int n ++ unit) = str_of_int n
  ∧ str_of_int n ≠ ""
  ∧ digits_value 0 (strip_non_digits (str_of_int n ++ unit)) = n
  ∧ strip_digits (str_of_int n ++ unit) = unit.
Proof.
  intros Hn Hunit.
  destruct (str_of_int_digits n Hn) as (Hdigits & Hnone & Hne & Hval).
  assert (strip_non_digits (str_of_int n ++ unit) = str_of_int n) as Hnumber.
  { unfold strip_non_digits in *.
    by rewrite filter_chars_app, Hdigits, Hunit, string_app_nil_r. }
  split; [done|]. split; [done|]. split; [by rewrite Hnumber|].
  rewrite <- (strip_digits_id unit Hunit) at 2. unfold strip_digits in *.
  by rewrite filter_chars_app, Hnone.
Qed.

End DecimalFacts.

Section CompileClaims.

Import SGE Listing.

(** C4: a target with [cores=4] and [memory="8g"], whose options have
    distinct names that all have a flag, compiles to a script with the line
    [#$ -l h_vmem=2g]: the total of 8 divided by the 4 cores. *)
Theorem compile_script_memory_per_core self target :
  NoDup (options target).*1 →
  (options target).*1 ⊆ OPTION_FLAGS.*1 →
  ("cores", VInt 4) ∈ options target →
  ("memory", VStr "8g") ∈ options target →
  ∃ script,
    compile_script self target = Return script
    ∧ contains_line script "#$ -l h_vmem=2g".
Proof.
  intros Hnd Hflags Hcores Hmem.
  destruct (compile_script_memory_line self target "8g" 4 Hnd Hflags Hmem Hcores)
    as (script & Hscript & Hline); [done..|].
  by exists script.
Qed.

(** C9: the per-core amount is the floor of the number in the [memory]
    option divided by [cores]; what is left over is dropped.  The number is
    the one the digits of the option spell: for a [memory] that is a number
    [n] as [str] prints it, followed by a unit, the amount is the floor of
    [n] by [cores].  So [memory="1g"] with [cores=2] gives the line
    [#$ -l h_vmem=0g]. *)
Theorem compile_script_memory_floor self target text c :
  NoDup (options target).*1 →
  (options target).*1 ⊆ OPTION_FLAGS.*1 →
  ("memory", VStr text) ∈ options target →
  ("cores", VInt c) ∈ options target →
  0 < c →
  strip_non_digits text ≠ "" →
  ∃ script per_core,
    compile_script self target = Return script
    ∧ contains_line script
        ("#$ -l h_vmem=" ++ str_of_int per_core ++ strip_digits text)
    ∧ per_core = digits_value 0 (strip_non_digits text) / c
    ∧ c * per_core ≤ digits_value 0 (strip_non_digits text) < c * (per_core + 1)
    ∧ (∀ n unit,
         0 ≤ n → strip_non_digits unit = "" →
         text = (str_of_int n ++ unit)%string →
         per_core = n / c
         ∧ c * per_core ≤ n < c * (per_core + 1)
         ∧ contains_line script ("#$ -l h_vmem=" ++ str_of_int (n / c) ++ unit))
    ∧ (text = "1g" → c = 2 → contains_line script "#$ -l h_vmem=0g").
Proof.
  intros Hnd Hflags Hmem Hcores Hc Hdigits.
  destruct (compile_script_memory_line self target text c Hnd Hflags Hmem Hcores)
    as (script & Hscript & Hline); [lia|done|].
  exists script, (digits_value 0 (strip_non_digits text) / c).
  assert (∀ m, c * (m / c) ≤ m < c * (m / c + 1)) as Hfloor.
  { intros m. split; [by apply Z.mul_div_le|]. rewrite Z.add_1_r.
    by apply Z.mul_succ_div_gt. }
  split; [done|]. split; [done|]. split; [done|]. split; [apply Hfloor|]. split.
  - intros n unit Hn Hunit ->.
    destruct (parse_printed_memory n unit Hn Hunit) as (_ & _ & Hval & Hrest).
    rewrite Hval, Hrest in Hline. rewrite Hval.
    split; [done|]. split; [apply Hfloor|done].
  - intros -> ->. exact Hline.
Qed.

End CompileClaims.

Section OpsClaims.

Import SGE Listing.

Variable call : invocation -> outcome string.
Variable job_lists_of_xml : string -> outcome (list job_list).

Notation get_job_states := (get_job_states call job_lists_of_xml).
Notation submit_target := (submit_target call).

Lemma job_states_loop_run listing acc :
  job_states_loop (job_of <$> listing) acc
  = Return (foldl record_state acc listing).
Proof.
  revert acc. induction listing as [|[id s] listing IH]; intros acc; [done|].
  simpl. apply IH.
Qed.

Lemma record_state_absent listing acc id :
  id ∉ listing.*1 → foldl record_state acc listing !! id = acc !! id.
Proof.
  revert acc. induction listing as [|[id' s] listing IH]; intros acc; [done|].
  simpl. intros [Hne Hnot]%not_elem_of_cons. rewrite IH by done.
  unfold record_state. simpl. by rewrite lookup_insert_ne.
Qed.

(** The last entry of a job id decides. *)
Lemma record_state_last pre id s post acc :
  id ∉ post.*1 →
  foldl record_state acc (pre ++ (id, s) :: post) !! id
  = Some (job_state_of s).
Proof.
  intros Hnot. rewrite foldl_app. simpl. rewrite record_state_absent by done.
  unfold record_state at 1. simpl. by rewrite lookup_insert_eq.
Qed.

Lemma last_entry (listing : list (string * string)) id :
  id ∈ listing.*1 →
  ∃ pre s post, listing = pre ++ (id, s) :: post ∧ id ∉ post.*1.
Proof.
  induction listing as [|[id' s'] listing IH]; simpl; [by intros ?%elem_of_nil|].
  intros Hin. destruct (decide (id ∈ listing.*1)) as [Hrest|Hrest].
  - destruct (IH Hrest) as (pre & s & post & -> & Hnot).
    by exists ((id', s') :: pre), s, post.
  - apply elem_of_cons in Hin as [->|Hin]; [|done].
    by exists [], s', listing.
Qed.

Lemma get_job_states_run self tracked_jobs xml listing :
  call (mkInvocation "qstat" ["-f"; "-xml"] None) = Return xml →
  job_lists_of_xml xml = Return (job_of <$> listing) →
  get_job_states self tracked_jobs
  = (Return (foldl record_state ∅ listing),
     [mkInvocation "qstat" ["-f"; "-xml"] None]).
Proof.
  intros Hcall Hxml. unfold SGE.get_job_states, run, lift, mbind, IO_bind.
  by rewrite Hcall, Hxml, job_states_loop_run.
Qed.

Lemma job_state_of_cases s :
  (("d"%char ∈ chars s ∨ "E"%char ∈ chars s) → job_state_of s = UNKNOWN)
  ∧ ("d"%char ∉ chars s → "E"%char ∉ chars s →
     ("r"%char ∈ chars s ∨ "t"%char ∈ chars s ∨ "s"%char ∈ chars s) →
     job_state_of s = RUNNING)
  ∧ ("d"%char ∉ chars s → "E"%char ∉ chars s → "r"%char ∉ chars s →
     "t"%char ∉ chars s → "s"%char ∉ chars s →
     job_state_of s = SUBMITTED).
Proof.
  unfold job_state_of. rewrite <- !char_in_chars.
  destruct (char_in "d" s), (char_in "E" s), (char_in "r" s),
    (char_in "t" s), (char_in "s" s); simpl; naive_solver.
Qed.

(** C6: over a listing whose entries all carry a job number and a state,
    [get_job_states] returns a mapping in which a job id that is not listed
    has no entry, and a listed one has the status of its state code (of its
    last entry, when it is listed more than once): [UNKNOWN] for a code with
    [d] or [E], else [RUNNING] for a code with [r], [t] or [s], else
    [SUBMITTED]. *)
Theorem get_job_states_classifies self tracked_jobs xml listing :
  call (mkInvocation "qstat" ["-f"; "-xml"] None) = Return xml →
  job_lists_of_xml xml = Return (job_of <$> listing) →
  ∃ m,
    (get_job_states self tracked_jobs).1 = Return m
    ∧ (∀ id, id ∉ listing.*1 → m !! id = None)
    ∧ (∀ id, id ∈ listing.*1 →
         ∃ s, (id, s) ∈ listing ∧ m !! id = Some (job_state_of s))
    ∧ (∀ pre id s post, listing = pre ++ (id, s) :: post → id ∉ post.*1 →
         m !! id = Some (job_state_of s))
    ∧ (∀ s,
         (("d"%char ∈ chars s ∨ "E"%char ∈ chars s) → job_state_of s = UNKNOWN)
         ∧ ("d"%char ∉ chars s → "E"%char ∉ chars s →
            ("r"%char ∈ chars s ∨ "t"%char ∈ chars s ∨ "s"%char ∈ chars s) →
            job_state_of s = RUNNING)
         ∧ ("d"%char ∉ chars s → "E"%char ∉ chars s → "r"%char ∉ chars s →
            "t"%char ∉ chars s → "s"%char ∉ chars s →
            job_state_of s = SUBMITTED)).
Proof.
  intros Hcall Hxml. eexists. split.
  { by rewrite (get_job_states_run self tracked_jobs xml listing). }
  split; [|split; [|split]].
  - intros id Hid. by rewrite record_state_absent.
  - intros id (pre & s & post & -> & Hnot)%last_entry. exists s. split.
    + apply elem_of_app. right. by left.
    + by apply record_state_last.
  - intros pre id s post -> Hnot. by apply record_state_last.
  - apply job_state_of_cases.
Qed.

Lemma job_states_loop_dom jobs acc m :
  job_states_loop jobs acc = Return m →
  (∀ id, is_Some (acc !! id) → is_Some (m !! id))
  ∧ (∀ job id, job ∈ jobs → JB_job_number job = Some (Some id) →
       is_Some (m !! id)).
Proof.
  revert acc. induction jobs as [|job jobs IH]; intros acc; simpl.
  { intros [= <-]. split; [done|]. by intros job id ?%elem_of_nil. }
  destruct (JB_job_number job) as [[id|]|] eqn:Hid; try done;
    destruct (state job) as [[s|]|]; try done.
  intros [Hacc Hjobs]%IH. split.
  - intros id' Hid'. apply Hacc. rewrite lookup_insert.
    case_decide; [by eexists|done].
  - intros job' id' [->|Hjob']%elem_of_cons Hnum; [|by eapply Hjobs].
    apply Hacc. rewrite Hid in Hnum. injection Hnum as <-.
    rewrite lookup_insert_eq. by eexists.
Qed.

(** C10: [get_job_states] does the same whatever [tracked_jobs] is, and a
    mapping it returns has an entry for every job of the listing, tracked or
    not. *)
Theorem get_job_states_ignores_tracked self tracked_jobs tracked_jobs' :
  get_job_states self tracked_jobs = get_job_states self tracked_jobs'
  ∧ ∀ xml jobs m,
      call (mkInvocation "qstat" ["-f"; "-xml"] None) = Return xml →
      job_lists_of_xml xml = Return jobs →
      (get_job_states self tracked_jobs).1 = Return m →
      ∀ job id, job ∈ jobs → JB_job_number job = Some (Some id) →
        is_Some (m !! id).
Proof.
  split; [done|]. intros xml jobs m Hcall Hxml.
  unfold SGE.get_job_states, run, lift, mbind, IO_bind.
  rewrite Hcall, Hxml. simpl.
  destruct (job_states_loop jobs ∅) as [m'|e] eqn:Hloop; simpl; [|done].
  intros [= <-]. by apply job_states_loop_dom in Hloop as [_ Hjobs].
Qed.


End OpsClaims.

(** ** The properties at work on the example *)

Section RankFacts.

Import Utils Graph.

Lemma ranked_edge g rank x d :
  ranked g rank = true → edge g x d → (rank d < rank x)%nat.
Proof.
  unfold ranked, edge, dependencies_of. intros Hr Hd.
  destruct (g !! x) as [ds|] eqn:Hx; simpl in Hd; [|by apply elem_of_nil in Hd].
  apply Is_true_true, forallb_True in Hr. rewrite Forall_forall in Hr.
  apply elem_of_map_to_list in Hx. specialize (Hr _ Hx). simpl in Hr.
  apply forallb_True in Hr. rewrite Forall_forall in Hr.
  specialize (Hr _ Hd). apply Is_true_true in Hr. by apply Nat.ltb_lt.
Qed.

(** A graph that passes the rank check has no cycle. *)
Lemma acyclic_ranked g rank : ranked g rank = true → acyclic g.
Proof.
  intros Hr.
  assert (∀ a b, tc (edge g) a b → (rank b < rank a)%nat) as Hdown.
  { induction 1 as [a b Hab|a b c Hab _ IH].
    - by eapply ranked_edge.
    - pose proof (ranked_edge _ _ _ _ Hr Hab). lia. }
  intros x Hx%Hdown. lia.
Qed.

End RankFacts.

Section ListedFacts.

Import Base Example.

Lemma listed_submit_marks (st : list Target) t st' :
  submit st t = (st', None) → submitted st' t = true.
Proof. intros [= <-]. apply bool_decide_eq_true. by left. Qed.

Lemma listed_submit_keeps (st : list Target) t st' e t' :
  submit st t = (st', e) → submitted st t' = true → submitted st' t' = true.
Proof.
  intros [= <- _] Hin%bool_decide_eq_true. apply bool_decide_eq_true. by right.
Qed.

End ListedFacts.

Section Witnesses.

Import Utils Graph Base SGE Listing Example Trial.

Local Ltac by_compute := refine (bool_decide_unpack _ _); vm_compute; exact I.

(** Scheduling [report] a second time, after a first call that submitted
    [align] and [report]. *)
Lemma schedule_idempotent_witness :
  ∃ tr2, schedule workflow report [report; align] = (Return [], [report; align], tr2)
         ∧ submit_calls tr2 = [].
Proof.
  eapply (schedule_idempotent workflow listed_submit_marks listed_submit_keeps
            report [] [align; report] [report; align]).
  vm_compute. reflexivity.
Defined.

(** [report] depends on [align]; one call submits both, [align] first. *)
Lemma schedule_dependency_first_witness :
  precedes (submit_calls (schedule workflow report []).2) align report
  ∧ NoDup (submit_calls (schedule workflow report []).2)
  ∧ (∀ l, Return [align; report] = Return l →
       l = submit_calls (schedule workflow report []).2).
Proof.
  apply (schedule_dependency_first workflow report []
           (Return [align; report]) [report; align]
           (schedule workflow report []).2 report align).
  - apply (acyclic_ranked _ rank). vm_compute. reflexivity.
  - unfold edge. by_compute.
  - vm_compute. reflexivity.
  - by_compute.
  - by_compute.
Defined.

(** [index] is up to date and not submitted: scheduling [report] leaves it
    alone. *)
Lemma schedule_skips_up_to_date_witness :
  (index ∉ submit_calls (schedule workflow report []).2)
  ∧ (∀ l, Return [align; report] = Return l → index ∉ l).
Proof.
  apply (schedule_skips_up_to_date workflow report []
           (Return [align; report]) [report; align]
           (schedule workflow report []).2 index).
  - vm_compute. reflexivity.
  - vm_compute. reflexivity.
Defined.

(** [report] is submitted, [align] is neither submitted nor up to date:
    scheduling [report] does not reach [align]. *)
Lemma schedule_submitted_root_witness :
  submitted [report] align = false
  ∧ should_run workflow align = true
  ∧ schedule workflow report [report]
    = (Return [], [report],
       [ Log DEBUG "Scheduling target report.";
         CallSubmitted report;
         Log DEBUG "Target report has already been submitted." ])
  ∧ submit_calls (schedule workflow report [report]).2 = [].
Proof.
  split; [vm_compute; reflexivity|]. split; [vm_compute; reflexivity|].
  apply (schedule_submitted_root workflow report [report]).
  vm_compute. reflexivity.
Defined.



Lemma compile_script_memory_per_core_witness :
  ∃ script,
    compile_script ops align = Return script
    ∧ contains_line script "#$ -l h_vmem=2g".
Proof.
  apply (compile_script_memory_per_core ops align); by_compute.
Defined.

(** 9g over 2 cores is 4g, the half left over dropped; 1g over 2 cores is
    0g. *)
Lemma compile_script_memory_floor_witness :
  (∃ script,
     compile_script ops odd_memory = Return script
     ∧ contains_line script "#$ -l h_vmem=4g")
  ∧ (∃ script,
       compile_script ops index = Return script
       ∧ contains_line script "#$ -l h_vmem=0g").
Proof.
  split.
  - destruct (compile_script_memory_floor ops odd_memory "9g" 2)
      as (script & per_core & Hscript & _ & _ & _ & Hnumber & _);
      [by_compute|by_compute|by_compute|by_compute|lia|vm_compute; discriminate|].
    destruct (Hnumber 9 "g") as (_ & _ & Hline); [lia|reflexivity|reflexivity|].
    exists script. split; [exact Hscript|exact Hline].
  - destruct (compile_script_memory_floor ops index "1g" 2)
      as (script & per_core & Hscript & _ & _ & _ & _ & Hline);
      [by_compute|by_compute|by_compute|by_compute|lia|vm_compute; discriminate|].
    exists script. split; [exact Hscript|by apply Hline].
Defined.

Lemma get_job_states_classifies_witness :
  ∃ m,
    (get_job_states call job_lists_of_xml ops ["101"]).1 = Return m
    ∧ (∀ id, id ∉ listing.*1 → m !! id = None)
    ∧ (∀ id, id ∈ listing.*1 →
         ∃ s, (id, s) ∈ listing ∧ m !! id = Some (job_state_of s))
    ∧ (∀ pre id s post, listing = pre ++ (id, s) :: post → id ∉ post.*1 →
         m !! id = Some (job_state_of s))
    ∧ (∀ s,
         (("d"%char ∈ chars s ∨ "E"%char ∈ chars s) → job_state_of s = UNKNOWN)
         ∧ ("d"%char ∉ chars s → "E"%char ∉ chars s →
            ("r"%char ∈ chars s ∨ "t"%char ∈ chars s ∨ "s"%char ∈ chars s) →
            job_state_of s = RUNNING)
         ∧ ("d"%char ∉ chars s → "E"%char ∉ chars s → "r"%char ∉ chars s →
            "t"%char ∉ chars s → "s"%char ∉ chars s →
            job_state_of s = SUBMITTED)).
Proof.
  apply (get_job_states_classifies call job_lists_of_xml ops ["101"]
           "<job_info/>" listing); reflexivity.
Defined.

(** Job 103 is listed and not tracked. *)
Lemma get_job_states_ignores_tracked_witness :
  is_Some (foldl record_state ∅ listing !! "103").
Proof.
  apply (proj2 (get_job_states_ignores_tracked call job_lists_of_xml ops
                  ["101"] [])
           "<job_info/>" (job_of <$> listing) (foldl record_state ∅ listing)
           eq_refl eq_refl eq_refl (job_of ("103", "Eqw")) "103").
  - by_compute.
  - reflexivity.
Defined.


End Witnesses.

(** ** More on scheduling *)

Section ScheduleMore.

Import Utils Graph Base.

Context {St : Type} `{Backend St}.
Variable workflow : PreparedWorkflow.

(** One turn of the loop of [schedule_many], read off a run of it. *)
Lemma schedule_many_loop_step target targets schedules st r st' tr :
  schedule_many_loop workflow (target :: targets) schedules st = (r, st', tr) →
  (∃ s st1 tr1 tr2,
      schedule workflow target st = (Return s, st1, tr1)
      ∧ schedule_many_loop workflow targets (schedules ++ [s]) st1 = (r, st', tr2)
      ∧ tr = tr1 ++ tr2)
  ∨ (∃ e, schedule workflow target st = (Raise e, st', tr) ∧ r = Raise e).
Proof.
  cbn [schedule_many_loop]. unfold mbind at 1. unfold M_bind at 1.
  destruct (schedule workflow target st) as [[[s|e] st1] tr1] eqn:E1.
  - destruct (schedule_many_loop workflow targets (schedules ++ [s]) st1)
      as [[r2 st2] tr2] eqn:E2.
    intros [= <- <- <-]. left. by exists s, st1, tr1, tr2.
  - intros [= <- <- <-]. right. by exists e.
Qed.

Lemma replay_cons (st : St) d calls :
  replay st (d :: calls) = replay (submit st d).1 calls.
Proof. reflexivity. Qed.

(** The state a run of the loop leaves is the one its [submit] calls make
    of the state it started in, and a [submit] call that raises is the last
    one. *)
Lemma schedule_loop_replay target walk scheduled st r st' tr :
  schedule_loop workflow target walk scheduled st = (r, st', tr) →
  st' = replay st (submit_calls tr)
  ∧ ∀ calls d rest e,
      submit_calls tr = calls ++ d :: rest →
      (submit (replay st calls) d).2 = Some e →
      rest = [] ∧ r = Raise e.
Proof.
  revert scheduled st tr. induction walk as [|d0 walk IH]; intros scheduled st tr.
  { intros [= <- <- <-]. split; [done|].
    intros calls d rest e Hcalls. by destruct calls. }
  intros [(_ & tr0 & tr1 & -> & Hnone & Hrest)
         |(_ & _ & s1 & tr0 & Hone & [(Hok & tr1 & -> & Hrest)
                                      |(e0 & Hfail & -> & -> & ->)])]%schedule_loop_step.
  - rewrite submit_calls_app, Hnone. cbn [app]. by eapply IH.
  - destruct (IH _ _ _ Hrest) as [Hstate Hlast].
    rewrite submit_calls_app, Hone. cbn [app]. split.
    + by rewrite replay_cons, Hok.
    + intros calls d rest e Hcalls Hraise. destruct calls as [|c calls].
      * cbn [app] in Hcalls. injection Hcalls as <- _.
        change (replay st []) with st in Hraise.
        by rewrite Hok in Hraise.
      * cbn [app] in Hcalls. injection Hcalls as <- Hcalls.
        rewrite replay_cons, Hok in Hraise. by eapply Hlast.
  - rewrite Hone. split.
    + by rewrite replay_cons, Hfail.
    + intros calls d rest e Hcalls Hraise. destruct calls as [|c calls].
      * cbn [app] in Hcalls. injection Hcalls as <- <-.
        change (replay st []) with st in Hraise.
        rewrite Hfail in Hraise. by injection Hraise as <-.
      * cbn [app] in Hcalls. injection Hcalls as _ Hcalls. by destruct calls.
Qed.

(** X1: whether [schedule] returns or raises, the state it leaves is the
    state it started in with its [submit] calls made on it in call order, so
    what was submitted before a failure stays submitted; and a [submit] call
    that raises is the last thing [schedule] does: the call ends with that
    exception. *)
Theorem schedule_state_is_replay target st r st' tr :
  schedule workflow target st = (r, st', tr) →
  st' = replay st (submit_calls tr)
  ∧ ∀ calls d rest e,
      submit_calls tr = calls ++ d :: rest →
      (submit (replay st calls) d).2 = Some e →
      rest = [] ∧ r = Raise e.
Proof.
  intros [(_ & -> & -> & ->)|(_ & tr0 & tr1 & -> & Hnone & Hloop)]%schedule_cases.
  - split; [done|]. intros calls d rest e Hcalls. by destruct calls.
  - rewrite submit_calls_app, Hnone. cbn [app]. by eapply schedule_loop_replay.
Qed.

(** *** What is submitted, and how often *)

(** From here on the backend is one whose [submit] marks what it submits and
    never un-submits a target. *)
Hypothesis submit_marks : ∀ st t st',
  submit st t = (st', None) → submitted st' t = true.
Hypothesis submit_keeps : ∀ st t st' e t',
  submit st t = (st', e) → submitted st t' = true → submitted st' t' = true.

Lemma submit_keeps_false st t st' e t' :
  submit st t = (st', e) → submitted st' t' = false → submitted st t' = false.
Proof.
  intros Hs Hf. destruct (submitted st t') eqn:E; [|done].
  by rewrite (submit_keeps _ _ _ _ _ Hs E) in Hf.
Qed.

(** What the loop submits was not submitted when it started, is submitted
    once, and is submitted when the loop returns. *)
Lemma schedule_loop_fresh target walk scheduled st r st' tr :
  schedule_loop workflow target walk scheduled st = (r, st', tr) →
  (∀ d, d ∈ submit_calls tr → submitted st d = false)
  ∧ NoDup (submit_calls tr)
  ∧ (∀ l, r = Return l → ∀ d, d ∈ submit_calls tr → submitted st' d = true).
Proof.
  revert scheduled st tr. induction walk as [|d walk IH]; intros scheduled st tr.
  { intros [= <- <- <-]. simpl. split; [by intros d ?%elem_of_nil|].
    split; [apply NoDup_nil_2|]. by intros l _ d ?%elem_of_nil. }
  intros [(_ & tr0 & tr1 & -> & Hnone & Hrest)
         |(Hsub & _ & s1 & tr0 & Hone & [(Hok & tr1 & -> & Hrest)
                                         |(e & _ & -> & -> & ->)])]%schedule_loop_step.
  - rewrite submit_calls_app, Hnone. simpl. by eapply IH.
  - pose proof (schedule_loop_keeps workflow submit_keeps _ _ _ _ _ _ _ d Hrest
                  (submit_marks _ _ _ Hok)) as Hd.
    destruct (IH _ _ _ Hrest) as (Hfresh & Hnd & Hret).
    rewrite submit_calls_app, Hone. simpl. split; [|split].
    + intros d' [->|Hd']%elem_of_cons; [done|].
      eapply submit_keeps_false; [done|]. by apply Hfresh.
    + apply NoDup_cons. split; [|done]. intros Hin%Hfresh.
      rewrite (submit_marks _ _ _ Hok) in Hin. done.
    + intros l Hl d' [->|Hd']%elem_of_cons; [done|]. by eapply Hret.
  - rewrite Hone. split; [by intros d' ->%list_elem_of_singleton|].
    split; [apply NoDup_singleton|]. done.
Qed.

Lemma schedule_fresh target st r st' tr :
  schedule workflow target st = (r, st', tr) →
  (∀ d, d ∈ submit_calls tr → submitted st d = false)
  ∧ NoDup (submit_calls tr)
  ∧ (∀ l, r = Return l → ∀ d, d ∈ submit_calls tr → submitted st' d = true).
Proof.
  intros [(_ & _ & _ & ->)|(_ & tr0 & tr1 & -> & Hnone & Hloop)]%schedule_cases.
  - split; [by intros d ?%elem_of_nil|]. split; [apply NoDup_nil_2|].
    by intros l _ d ?%elem_of_nil.
  - rewrite submit_calls_app, Hnone. simpl. by eapply schedule_loop_fresh.
Qed.

Lemma schedule_keeps target st r st' tr t :
  schedule workflow target st = (r, st', tr) →
  submitted st t = true → submitted st' t = true.
Proof.
  intros [(_ & _ & -> & _)|(_ & tr0 & tr1 & -> & _ & Hloop)]%schedule_cases Ht;
    [done|].
  by eapply schedule_loop_keeps.
Qed.

(** X2: for such a backend, [schedule] never submits again what was
    submitted when the call started, and that target is still submitted
    when the call ends. *)
Theorem schedule_never_resubmits target st r st' tr d :
  submitted st d = true →
  schedule workflow target st = (r, st', tr) →
  (d ∉ submit_calls tr) ∧ submitted st' d = true.
Proof.
  intros Hd Hrun. split.
  - apply schedule_fresh in Hrun as (Hfresh & _). intros Hin%Hfresh. congruence.
  - by eapply schedule_keeps.
Qed.

(** X3: for such a backend, when [schedule] returns from a target that was
    not submitted, every target of its walk is then submitted or up to
    date. *)
Theorem schedule_settles target st l st' tr d :
  submitted st target = false →
  schedule workflow target st = (Return l, st', tr) →
  d ∈ dfs target (dependencies workflow) →
  submitted st' d = true ∨ should_run workflow d = false.
Proof.
  intros Hroot [(Hsub & _)|(_ & tr0 & tr1 & -> & Hnone & Hloop)]%schedule_cases Hd;
    [congruence|].
  by eapply (schedule_loop_settles workflow submit_marks submit_keeps).
Qed.

Lemma schedule_many_loop_keeps targets schedules st r st' tr t :
  schedule_many_loop workflow targets schedules st = (r, st', tr) →
  submitted st t = true → submitted st' t = true.
Proof.
  revert schedules st tr.
  induction targets as [|target targets IH]; intros schedules st tr.
  { by intros [= <- <- <-]. }
  intros [(s & st1 & tr1 & tr2 & H1 & H2 & ->)
         |(e & H1 & ->)]%schedule_many_loop_step Ht.
  - eapply IH; [done|]. by eapply schedule_keeps.
  - by eapply schedule_keeps.
Qed.

Lemma schedule_many_loop_fresh targets schedules st r st' tr :
  schedule_many_loop workflow targets schedules st = (r, st', tr) →
  (∀ d, d ∈ submit_calls tr → submitted st d = false)
  ∧ NoDup (submit_calls tr).
Proof.
  revert schedules st tr.
  induction targets as [|target targets IH]; intros schedules st tr.
  { intros [= <- <- <-]. simpl. split; [by intros d ?%elem_of_nil|].
    apply NoDup_nil_2. }
  intros [(s & st1 & tr1 & tr2 & H1 & H2 & ->)
         |(e & H1 & ->)]%schedule_many_loop_step.
  - destruct (schedule_fresh _ _ _ _ _ H1) as (Hfresh1 & Hnd1 & Hmarked1).
    destruct (IH _ _ _ H2) as (Hfresh2 & Hnd2).
    rewrite submit_calls_app. split.
    + intros d [Hd|Hd]%elem_of_app; [by apply Hfresh1|].
      apply Hfresh2 in Hd. destruct (submitted st d) eqn:E; [|done].
      by rewrite (schedule_keeps _ _ _ _ _ _ H1 E) in Hd.
    + apply NoDup_app. split; [done|]. split; [|done].
      intros d Hd1 Hd2%Hfresh2. by rewrite (Hmarked1 s eq_refl d Hd1) in Hd2.
  - by destruct (schedule_fresh _ _ _ _ _ H1) as (Hfresh1 & Hnd1 & _).
Qed.

(** X4: for such a backend, over all the targets of one [schedule_many], no
    target is submitted twice, a dependency that several of them share
    included, and none that was submitted before the call is submitted
    again. *)
Theorem schedule_many_submits_once targets st r st' tr :
  schedule_many workflow targets st = (r, st', tr) →
  NoDup (submit_calls tr)
  ∧ (∀ d, submitted st d = true → (d ∉ submit_calls tr) ∧ submitted st' d = true).
Proof.
  intros Hrun. destruct (schedule_many_loop_fresh _ _ _ _ _ _ Hrun) as [Hfresh Hnd].
  split; [done|]. intros d Hd. split.
  - intros Hin%Hfresh. congruence.
  - by eapply schedule_many_loop_keeps.
Qed.

End ScheduleMore.

Section ScheduleManyShape.

Import Utils Graph Base.

Context {St : Type} `{Backend St}.
Variable workflow : PreparedWorkflow.

Lemma schedule_many_loop_shape targets schedules st r st' tr :
  schedule_many_loop workflow targets schedules st = (r, st', tr) →
  match r with
  | Return ls =>
      ∃ new, ls = schedules ++ new
             ∧ length new = length targets
             ∧ concat new = submit_calls tr
  | Raise e =>
      ∃ done_ target rest tr1 tr2 st1,
        targets = done_ ++ target :: rest
        ∧ tr = tr1 ++ tr2
        ∧ schedule workflow target st1 = (Raise e, st', tr2)
  end.
Proof.
  revert schedules st tr.
  induction targets as [|target targets IH]; intros schedules st tr.
  { intros [= <- <- <-]. exists []. by rewrite app_nil_r. }
  intros [(s & st1 & tr1 & tr2 & H1 & H2 & ->)
         |(e & H1 & ->)]%schedule_many_loop_step.
  - apply IH in H2. destruct r as [ls|e].
    + destruct H2 as (new & -> & Hlen & Hcat). exists (s :: new).
      rewrite <- app_assoc. split; [done|]. simpl. split; [by rewrite Hlen|].
      rewrite submit_calls_app, Hcat.
      by rewrite (schedule_returns_calls _ _ _ _ _ _ H1).
    + destruct H2 as (done_ & t & rest & t1 & t2 & s1 & -> & -> & Hfail).
      exists (target :: done_), t, rest, (tr1 ++ t1), t2, s1.
      by rewrite <- app_assoc.
  - by exists [], target, targets, [], tr, st.
Qed.

(** X5: [schedule_many] returns one schedule for each requested target, in
    order, and put end to end they are the [submit] calls it made, in call
    order; an exception that ends it is one that ended the [schedule] of one
    of the targets. *)
Theorem schedule_many_shape targets st r st' tr :
  schedule_many workflow targets st = (r, st', tr) →
  match r with
  | Return ls => length ls = length targets ∧ concat ls = submit_calls tr
  | Raise e =>
      ∃ target tr1 tr2 st1,
        target ∈ targets
        ∧ tr = tr1 ++ tr2
        ∧ schedule workflow target st1 = (Raise e, st', tr2)
  end.
Proof.
  intros Hrun%schedule_many_loop_shape. destruct r as [ls|e].
  - by destruct Hrun as (new & -> & Hlen & Hcat).
  - destruct Hrun as (done_ & t & rest & t1 & t2 & s1 & -> & -> & Hfail).
    exists t, t1, t2, s1. split; [|done]. apply elem_of_app. right. by left.
Qed.

End ScheduleManyShape.

(** ** More on construction *)

Section InitMore.

Import Base.

Context {St : Type} `{Backend St}.

(** X6: a backend that keeps the base class's [supported_options], which
    gives [None], is constructed without a warning over a workflow whose
    targets have no options, and raises [TypeError] over any other. *)
Theorem init_base_supported_options w :
  supported_options = None →
  ((∀ t, t ∈ (targets w).*2 → options t = []) →
   __init__ (Prepared w) = (Return w, []))
  ∧ (∀ t, t ∈ (targets w).*2 → options t ≠ [] →
     __init__ (Prepared w) = (Raise TypeError, [])).
Proof.
  intros Hsup. split.
  - intros Hnone. assert (all_options w = ∅) as Hempty.
    { apply elem_of_equiv_empty_L. intros k (t & Ht & Hk)%elem_of_all_options.
      rewrite (Hnone t Ht) in Hk. by apply elem_of_nil in Hk. }
    unfold __init__. by rewrite Hempty, elements_empty.
  - intros t Ht Hsome. destruct (options t) as [|[k v] rest] eqn:Hopts; [done|].
    apply (init_without_supported_options w k Hsup).
    apply elem_of_all_options. exists t. split; [done|].
    rewrite Hopts. by left.
Qed.

End InitMore.

(** ** More on the SGE plugin *)

Section CompileMore.

Import SGE Listing.

Lemma assoc_None {V} (d : list (string * V)) k :
  k ∉ d.*1 → assoc k d = None.
Proof.
  induction d as [|[k' v'] d IH]; simpl; [done|].
  intros [Hne Hnot]%not_elem_of_cons. rewrite decide_False by done. by apply IH.
Qed.

Lemma assoc_elem {V} (d : list (string * V)) k v :
  assoc k d = Some v → (k, v) ∈ d.
Proof.
  induction d as [|[k' v'] d IH]; simpl; [done|].
  destruct (decide (k' = k)) as [->|Hne].
  - intros [= ->]. by left.
  - intros Hv. right. by apply IH.
Qed.

(** What makes the conversion of a [memory] value go through. *)
Lemma memory_per_core_inv target v shown :
  memory_per_core target v = Return shown → convertible target v.
Proof.
  unfold memory_per_core, convertible, int_of_digits, dict_get, floor_div.
  destruct v as [n|text|]; [done| |done].
  destruct (strip_non_digits text) as [|x digits] eqn:E; [done|].
  unfold mbind, outcome_bind.
  destruct (assoc "cores" (options target)) as [[c| |]|]; try done.
  destruct (decide (c = 0)) as [->|Hc]; [done|].
  intros _. exists text, c. by rewrite E.
Qed.

Lemma convertible_run target v :
  convertible target v → ∃ shown, memory_per_core target v = Return shown.
Proof.
  intros (text & c & -> & Hdigits & Hcores & Hc).
  eexists. by apply memory_per_core_run.
Qed.

(** One item of the options and the directive it gives. *)
Lemma option_lines_cons_inv target k v rest lines :
  option_lines target ((k, v) :: rest) = Return lines →
  ∃ shown flag more,
    (if decide (k = "memory") then memory_per_core target v = Return shown
     else shown = format_value v)
    ∧ assoc k OPTION_FLAGS = Some flag
    ∧ option_lines target rest = Return more
    ∧ lines = option_str flag shown :: more.
Proof.
  cbn [option_lines]. unfold dict_get, mbind, mret, outcome_bind, outcome_ret.
  fold (option_lines target rest).
  destruct (decide (k = "memory")) as [->|Hk].
  - destruct (memory_per_core target v) as [shown|e]; [|done].
    destruct (assoc "memory" OPTION_FLAGS) as [flag|]; [|done].
    destruct (option_lines target rest) as [more|e]; [|done].
    intros [= <-]. by exists shown, flag, more.
  - destruct (assoc k OPTION_FLAGS) as [flag|]; [|done].
    destruct (option_lines target rest) as [more|e]; [|done].
    intros [= <-]. by exists (format_value v), flag, more.
Qed.

Lemma option_lines_inv target items lines :
  option_lines target items = Return lines →
  ∀ k v, (k, v) ∈ items →
    ∃ flag, assoc k OPTION_FLAGS = Some flag
      ∧ (k = "memory" → convertible target v)
      ∧ (k ≠ "memory" → option_str flag (format_value v) ∈ lines).
Proof.
  revert lines. induction items as [|[k0 v0] items IH]; intros lines.
  { by intros _ k v ?%elem_of_nil. }
  intros (shown & flag & more & Hshown & Hflag & Hmore & ->)%option_lines_cons_inv
         k v [[= -> ->]|Hin]%elem_of_cons.
  - exists flag. split; [done|]. split.
    + intros ->. rewrite decide_True in Hshown by done.
      by eapply memory_per_core_inv.
    + intros Hk. rewrite decide_False in Hshown by done. subst. by left.
  - destruct (IH _ Hmore k v Hin) as (flag' & Hf & Hm & Hl).
    exists flag'. split; [done|]. split; [done|]. intros Hk. right. by apply Hl.
Qed.

Lemma script_lines_inv self target lines :
  script_lines self target = Return lines →
  ∃ directives,
    option_lines target (options target) = Return directives
    ∧ lines
      = [ "#!/bin/bash"; "# Generated by: gwf"; option_str "-N " (name target);
          "#$ -V"; "#$ -w v"; "#$ -cwd" ]
        ++ directives
        ++ [ option_str "-o "
               (os_path_join (working_dir self)
                  [".gwf"; "logs"; (name target ++ ".stdout")%string]);
             option_str "-e "
               (os_path_join (working_dir self)
                  [".gwf"; "logs"; (name target ++ ".stderr")%string]);
             "";
             ("cd " ++ Core.working_dir target)%string;
             "export GWF_JOBID=$SGE_JOBID";
             ("export GWF_TARGET_NAME=" ++ dquote ++ name target ++ dquote)%string;
             "set -e";
             "";
             ensure_trailing_newline (spec target) ].
Proof.
  unfold script_lines, mbind, mret, outcome_bind, outcome_ret.
  destruct (option_lines target (options target)) as [directives|e]; [|done].
  intros [= <-]. by exists directives.
Qed.

Lemma compile_script_inv self target script :
  compile_script self target = Return script →
  ∃ lines, script_lines self target = Return lines
           ∧ script = str_join newline lines.
Proof.
  unfold compile_script, mbind, mret, outcome_bind, outcome_ret.
  destruct (script_lines self target) as [lines|e]; [|done].
  intros [= <-]. by exists lines.
Qed.

(** What a target whose script compiles is like. *)
Lemma compile_script_returns_inv self target script :
  compile_script self target = Return script →
  ∀ k v, (k, v) ∈ options target →
    k ∈ OPTION_FLAGS.*1 ∧ (k = "memory" → convertible target v).
Proof.
  intros (lines & (directives & Hopts & _)%script_lines_inv & _)%compile_script_inv
         k v Hin.
  destruct (option_lines_inv _ _ _ Hopts k v Hin) as (flag & Hflag & Hmem & _).
  split; [|done]. apply assoc_elem in Hflag.
  by apply (list_elem_of_fmap_2 fst) in Hflag.
Qed.

(** X7: for a target whose [cores] option, when it has one, is an int,
    [compile_script] returns a script exactly when every option name has a
    flag in [OPTION_FLAGS] and every [memory] value is a string with a digit
    in it while [cores] is there and is not 0; for any other such target it
    raises. *)
Theorem compile_script_returns_iff self target :
  (∀ c, ("cores", c) ∈ options target → ∃ n, c = VInt n) →
  ((∃ script, compile_script self target = Return script)
   ↔ ∀ k v, (k, v) ∈ options target →
       k ∈ OPTION_FLAGS.*1
       ∧ (k = "memory" →
          ∃ text c,
            v = VStr text
            ∧ strip_non_digits text ≠ ""
            ∧ assoc "cores" (options target) = Some c
            ∧ c ≠ VInt 0)).
Proof.
  intros Hint. split.
  - intros [script Hscript] k v Hin.
    destruct (compile_script_returns_inv _ _ _ Hscript k v Hin) as [Hflag Hmem].
    split; [done|]. intros Hk.
    destruct (Hmem Hk) as (text & c & -> & Hdigits & Hcores & Hc).
    exists text, (VInt c). repeat split; try done. by intros [= ->].
  - intros Hall.
    destruct (option_lines_run target (options target)) as (lines & Hlines & _).
    + intros k [[k' v] [-> Hin]]%list_elem_of_fmap. by apply (Hall k' v).
    + intros v Hin. apply convertible_run.
      destruct (Hall "memory" v Hin) as [_ Hmem].
      destruct (Hmem eq_refl) as (text & c & -> & Hdigits & Hcores & Hc).
      destruct (Hint c (assoc_elem _ _ _ Hcores)) as [n ->].
      exists text, n. repeat split; try done. by intros ->.
    + unfold compile_script, script_lines. rewrite Hlines. by eexists.
Qed.

(** X8: for every option but [memory], a compiled script has the line made
    of the option's flag and its value as [str.format] prints it; a value of
    [None] gives the word [None]. *)
Theorem compile_script_option_directive self target script k v :
  compile_script self target = Return script →
  (k, v) ∈ options target → k ≠ "memory" →
  ∃ flag,
    (k, flag) ∈ OPTION_FLAGS
    ∧ contains_line script ("#$ " ++ flag ++ format_value v)
    ∧ (v = VNone → contains_line script ("#$ " ++ flag ++ "None")).
Proof.
  intros (lines & (directives & Hopts & ->)%script_lines_inv & ->)%compile_script_inv
         Hin Hk.
  destruct (option_lines_inv _ _ _ Hopts k v Hin) as (flag & Hflag & _ & Hline).
  exists flag. split; [by apply assoc_elem|].
  split.
  - apply join_contains_line; [done|done|]. by apply Hline.
  - intros ->. apply join_contains_line; [done|done|]. by apply Hline.
Qed.

(** The one [memory] item of a dict decides when only it can fail. *)
Lemma option_lines_memory_raises target items v e :
  NoDup items.*1 → items.*1 ⊆ OPTION_FLAGS.*1 →
  ("memory", v) ∈ items → memory_per_core target v = Raise e →
  option_lines target items = Raise e.
Proof.
  induction items as [|[k0 v0] items IH]; [by intros _ _ ?%elem_of_nil|].
  intros [Hnot Hnd]%NoDup_cons Hflags Hin Hraise. cbn [option_lines].
  unfold dict_get, mbind, mret, outcome_bind, outcome_ret.
  fold (option_lines target items).
  destruct (decide (k0 = "memory")) as [->|Hk].
  - apply elem_of_cons in Hin as [[= ->]|Hin]; [by rewrite Hraise|].
    exfalso. apply Hnot. by apply (list_elem_of_fmap_2 fst) in Hin.
  - apply elem_of_cons in Hin as [[= ? ?]|Hin]; [congruence|].
    destruct (assoc_is_Some OPTION_FLAGS k0) as [flag ->].
    { apply Hflags. by left. }
    rewrite IH; [done|done| |done|done].
    intros k Hk'. apply Hflags. by right.
Qed.

Lemma compile_script_memory_raises self target v e :
  NoDup (options target).*1 → (options target).*1 ⊆ OPTION_FLAGS.*1 →
  ("memory", v) ∈ options target → memory_per_core target v = Raise e →
  compile_script self target = Raise e.
Proof.
  intros Hnd Hflags Hin Hraise. unfold compile_script, script_lines.
  by rewrite (option_lines_memory_raises target _ v e).
Qed.

(** X9: a [memory] option that is not a string makes [compile_script] raise
    [TypeError], and one that is a string without any digit makes it raise
    [ValueError]. *)
Theorem compile_script_memory_malformed self target v :
  NoDup (options target).*1 → (options target).*1 ⊆ OPTION_FLAGS.*1 →
  ("memory", v) ∈ options target →
  ((∀ text, v ≠ VStr text) → compile_script self target = Raise TypeError)
  ∧ (∀ text, v = VStr text → strip_non_digits text = "" →
       compile_script self target = Raise ValueError).
Proof.
  intros Hnd Hflags Hin. split.
  - intros Hv. apply (compile_script_memory_raises self target v); [done..|].
    destruct v as [n|text|]; [done| |done]. by destruct (Hv text).
  - intros text -> Hdigits.
    apply (compile_script_memory_raises self target (VStr text)); [done..|].
    unfold memory_per_core, int_of_digits. by rewrite Hdigits.
Qed.

(** X10: with a [memory] option to convert and no [cores] option,
    [compile_script] raises [KeyError] for [cores]. *)
Theorem compile_script_memory_without_cores self target text :
  NoDup (options target).*1 → (options target).*1 ⊆ OPTION_FLAGS.*1 →
  ("memory", VStr text) ∈ options target →
  strip_non_digits text ≠ "" →
  "cores" ∉ (options target).*1 →
  compile_script self target = Raise (KeyError "cores").
Proof.
  intros Hnd Hflags Hin Hdigits Hcores.
  apply (compile_script_memory_raises self target (VStr text)); [done..|].
  unfold memory_per_core, int_of_digits, dict_get.
  destruct (strip_non_digits text) as [|x digits]; [done|].
  unfold mbind, outcome_bind. by rewrite (assoc_None _ _ Hcores).
Qed.

(** X11: with a [memory] option to convert, [cores=0] makes [compile_script]
    raise [ZeroDivisionError], and a [cores] that is a string or [None]
    makes it raise [TypeError]. *)
Theorem compile_script_memory_bad_cores self target text c :
  NoDup (options target).*1 → (options target).*1 ⊆ OPTION_FLAGS.*1 →
  ("memory", VStr text) ∈ options target →
  strip_non_digits text ≠ "" →
  ("cores", c) ∈ options target →
  (c = VInt 0 → compile_script self target = Raise ZeroDivisionError)
  ∧ ((∃ s, c = VStr s) ∨ c = VNone →
     compile_script self target = Raise TypeError).
Proof.
  intros Hnd Hflags Hin Hdigits Hcores.
  assert (memory_per_core target (VStr text) = floor_div
            (digits_value 0 (strip_non_digits text)) c
            ≫= (fun per_core => Return (str_of_int per_core ++ strip_digits text)%string))
    as Hrun.
  { unfold memory_per_core, int_of_digits, dict_get.
    destruct (strip_non_digits text) as [|x digits]; [done|].
    unfold mbind at 1 2. unfold outcome_bind at 1 2.
    by rewrite (assoc_lookup _ _ _ Hnd Hcores). }
  split.
  - intros ->. by apply (compile_script_memory_raises self target (VStr text)).
  - intros Hc. apply (compile_script_memory_raises self target (VStr text)); [done..|].
    rewrite Hrun. by destruct Hc as [[s ->]| ->].
Qed.

End CompileMore.

Section PathFacts.

Import SGE Listing.

Lemma string_app_nil_inv (a b : string) : (a ++ b)%string = "" → b = "".
Proof. destruct a as [|x a]; [done|]. by rewrite string_app_cons. Qed.

Lemma ends_with_slash_app (a b : string) :
  b ≠ "" → ends_with_slash (a ++ b) = ends_with_slash b.
Proof.
  intros Hb. induction a as [|x a IH]; [done|].
  rewrite string_app_cons.
  destruct (a ++ b)%string as [|y s] eqn:E.
  - by apply string_app_nil_inv in E.
  - rewrite <- IH. reflexivity.
Qed.

Lemma prefix_slash_app (a b : string) :
  b ≠ "" → String.prefix "/" b = false → String.prefix "/" a = false →
  String.prefix "/" (a ++ b) = false.
Proof.
  intros Hb Hpb Hpa. destruct a as [|x a]; [done|].
  rewrite string_app_cons.
  change (String.prefix "/" (String x (a ++ b)))
    with (if ascii_dec "/" x then String.prefix "" (a ++ b) else false).
  change (String.prefix "/" (String x a))
    with (if ascii_dec "/" x then String.prefix "" a else false) in Hpa.
  destruct (ascii_dec "/" x); [by destruct a|done].
Qed.

(** The path of a log file. *)
Lemma os_path_join_logs wd file :
  file ≠ "" → String.prefix "/" file = false →
  os_path_join wd [".gwf"; "logs"; file] = (log_dir wd ++ file)%string.
Proof.
  intros Hne Hfile. unfold os_path_join, log_dir. simpl foldl.
  assert (path_join_step wd ".gwf"
          = (wd ++ (if decide (wd = "") then ""
                    else if ends_with_slash wd then "" else "/") ++ ".gwf")%string)
    as ->.
  { unfold path_join_step. change (String.prefix "/" ".gwf") with false.
    destruct (decide (wd = "")); [done|]. by destruct (ends_with_slash wd). }
  set (sep := if decide (wd = "") then "" else if ends_with_slash wd then "" else "/").
  assert (path_join_step (wd ++ sep ++ ".gwf") "logs"
          = (wd ++ sep ++ ".gwf/logs")%string) as ->.
  { unfold path_join_step. change (String.prefix "/" "logs") with false.
    rewrite decide_False.
    2:{ intros E. apply string_app_nil_inv, string_app_nil_inv in E. done. }
    rewrite <- string_app_assoc, ends_with_slash_app by done.
    change (ends_with_slash ".gwf") with false.
    rewrite !string_app_assoc. reflexivity. }
  unfold path_join_step. rewrite Hfile.
  rewrite decide_False.
  2:{ intros E. apply string_app_nil_inv, string_app_nil_inv in E. done. }
  rewrite <- string_app_assoc, ends_with_slash_app by done.
  change (ends_with_slash ".gwf/logs") with false.
  rewrite !string_app_assoc. reflexivity.
Qed.

(** X12: the [-o] and [-e] directives of a compiled script name the files
    [<name>.stdout] and [<name>.stderr] under [.gwf/logs/] in the workflow's
    directory, with one slash between the directory and [.gwf] whether or
    not the directory is written with a slash at its end. *)
Theorem compile_script_log_paths self target script :
  compile_script self target = Return script →
  String.prefix "/" (name target) = false →
  contains_line script
    ("#$ -o " ++ log_dir (working_dir self) ++ name target ++ ".stdout")
  ∧ contains_line script
      ("#$ -e " ++ log_dir (working_dir self) ++ name target ++ ".stderr").
Proof.
  intros (lines & (directives & Hopts & ->)%script_lines_inv & ->)%compile_script_inv
         Hname.
  rewrite !os_path_join_logs.
  2,4: by destruct (name target).
  2,3: by apply prefix_slash_app.
  split.
  - match goal with
    | |- contains_line (str_join _ (?h ++ directives ++ ?o :: ?rest)) _ =>
        replace (h ++ directives ++ o :: rest)
          with ((h ++ directives) ++ [o] ++ rest) by (by rewrite <- !app_assoc)
    end.
    apply join_contains_line; [by destruct directives|done|]. by left.
  - match goal with
    | |- contains_line (str_join _ (?h ++ directives ++ ?o :: ?e :: ?rest)) _ =>
        replace (h ++ directives ++ o :: e :: rest)
          with ((h ++ directives ++ [o]) ++ [e] ++ rest)
          by (by rewrite <- !app_assoc)
    end.
    apply join_contains_line; [by destruct directives|done|]. by left.
Qed.

End PathFacts.

Section OpsMore.

Import SGE Listing.

Variable call : invocation -> outcome string.
Variable job_lists_of_xml : string -> outcome (list job_list).

Notation get_job_states := (get_job_states call job_lists_of_xml).
Notation submit_target := (submit_target call).
Notation qstat := (mkInvocation "qstat" ["-f"; "-xml"] None).

Lemma job_states_loop_app good jobs acc :
  job_states_loop ((job_of <$> good) ++ jobs) acc
  = job_states_loop jobs (foldl record_state acc good).
Proof.
  revert acc. induction good as [|[id s] good IH]; intros acc; [done|].
  simpl. apply IH.
Qed.

(** X13: one [job_list] element that lacks its job number or its state costs
    the whole listing, the entries before it included: [get_job_states]
    raises [AttributeError] when the child element is missing and
    [AssertionError] when it is there without text. *)
Theorem get_job_states_malformed self tracked_jobs xml good bad rest :
  call qstat = Return xml →
  job_lists_of_xml xml = Return ((job_of <$> good) ++ bad :: rest) →
  ((JB_job_number bad = None ∨ state bad = None) →
   (get_job_states self tracked_jobs).1 = Raise AttributeError)
  ∧ (∀ number text,
       JB_job_number bad = Some number → state bad = Some text →
       number = None ∨ text = None →
       (get_job_states self tracked_jobs).1 = Raise AssertionError).
Proof.
  intros Hcall Hxml.
  assert ((get_job_states self tracked_jobs).1
          = job_states_loop (bad :: rest) (foldl record_state ∅ good)) as ->.
  { unfold SGE.get_job_states, run, lift, mbind, IO_bind.
    rewrite Hcall, Hxml, job_states_loop_app.
    by destruct (job_states_loop (bad :: rest) _). }
  simpl. split.
  - intros [Hn|Hs].
    + by rewrite Hn.
    + rewrite Hs. by destruct (JB_job_number bad).
  - intros number text -> -> [->| ->]; [done|]. by destruct number.
Qed.

(** X14: [get_job_states] runs one command, [qstat -f -xml], whatever comes
    of it and however many jobs are tracked, and an exception of the command
    or of reading its output is passed on as it is. *)
Theorem get_job_states_one_command self tracked_jobs :
  (get_job_states self tracked_jobs).2 = [qstat]
  ∧ (∀ e, call qstat = Raise e →
       (get_job_states self tracked_jobs).1 = Raise e)
  ∧ (∀ xml e, call qstat = Return xml → job_lists_of_xml xml = Raise e →
       (get_job_states self tracked_jobs).1 = Raise e).
Proof.
  unfold SGE.get_job_states, run, lift, mbind, IO_bind.
  destruct (call qstat) as [xml|e] eqn:Hcall; simpl.
  - destruct (job_lists_of_xml xml) as [jobs|e] eqn:Hxml; simpl.
    + destruct (job_states_loop jobs ∅); simpl.
      all: split; [done|]; split; [done|].
      all: intros xml' e' [= <-]; congruence.
    + split; [done|]. split; [done|]. intros xml' e' [= <-]. congruence.
  - split; [done|]. split; [by intros e' [= <-]|done].
Qed.

(** X15: a target whose script does not compile is not submitted:
    [submit_target] raises what [compile_script] raised and runs no command.
    A target with an option that has no flag is such a target. *)
Theorem submit_target_needs_script self target dependencies :
  (∀ e, compile_script self target = Raise e →
     submit_target self target dependencies = (Raise e, []))
  ∧ (∀ k, k ∈ (options target).*1 → k ∉ OPTION_FLAGS.*1 →
       ∃ e, submit_target self target dependencies = (Raise e, [])).
Proof.
  assert (∀ e, compile_script self target = Raise e →
            submit_target self target dependencies = (Raise e, [])) as Hraise.
  { intros e He. unfold SGE.submit_target, lift, mbind, IO_bind. by rewrite He. }
  split; [done|]. intros k [[k' v] [-> Hin]]%list_elem_of_fmap Hflag.
  destruct (compile_script self target) as [script|e] eqn:E; [|by eauto].
  destruct (compile_script_returns_inv _ _ _ E k' v Hin) as [Hk _]. done.
Qed.

End OpsMore.

Section ScheduleManyAgain.

Import Utils Graph Base.

Context {St : Type} `{Backend St}.
Variable workflow : PreparedWorkflow.

Hypothesis submit_marks : ∀ st t st',
  submit st t = (st', None) → submitted st' t = true.
Hypothesis submit_keeps : ∀ st t st' e t',
  submit st t = (st', e) → submitted st t' = true → submitted st' t' = true.

Lemma settled_schedule st target :
  settled workflow st target →
  ∃ tr, schedule workflow target st = (Return [], st, tr)
        ∧ submit_calls tr = [].
Proof.
  intros Hsettled. destruct (submitted st target) eqn:Hsub.
  { eexists. split; [by apply schedule_submitted_run|done]. }
  destruct Hsettled as [|Hall]; [congruence|].
  destruct (schedule_loop_settled workflow target _ [] st Hall)
    as (tr & Hloop & Hnone).
  unfold schedule, mbind, M_bind, logger_debug, emit, self_submitted.
  rewrite Hsub, Hloop. eexists. split; [reflexivity|]. simpl. exact Hnone.
Qed.

Lemma schedule_leaves_settled target st l st' tr :
  schedule workflow target st = (Return l, st', tr) → settled workflow st' target.
Proof.
  intros Hrun. pose proof Hrun as Hcopy.
  apply schedule_cases in Hcopy
    as [(Hsub & _ & -> & _)|(_ & tr0 & tr1 & -> & _ & Hloop)]; [by left|].
  right. by eapply (schedule_loop_settles workflow submit_marks submit_keeps).
Qed.

Lemma settled_keeps st st' target :
  (∀ t, submitted st t = true → submitted st' t = true) →
  settled workflow st target → settled workflow st' target.
Proof.
  intros Hkeeps [Hsub|Hall]; [left; by apply Hkeeps|].
  right. intros d Hd. destruct (Hall d Hd) as [?|?]; [left; by apply Hkeeps|by right].
Qed.

Lemma schedule_many_loop_leaves_settled targets schedules st ls st' tr :
  schedule_many_loop workflow targets schedules st = (Return ls, st', tr) →
  ∀ target, target ∈ targets → settled workflow st' target.
Proof.
  revert schedules st tr.
  induction targets as [|t targets IH]; intros schedules st tr.
  { by intros _ target ?%elem_of_nil. }
  intros [(s & st1 & tr1 & tr2 & H1 & H2 & ->)
         |(e & _ & [=])]%schedule_many_loop_step target [->|Hin]%elem_of_cons.
  - apply (settled_keeps st1); [|by eapply schedule_leaves_settled].
    intros d Hd.
    by eapply (schedule_many_loop_keeps workflow submit_keeps).
  - by eapply IH.
Qed.

Lemma settled_schedule_many_loop targets schedules st :
  (∀ target, target ∈ targets → settled workflow st target) →
  ∃ tr, schedule_many_loop workflow targets schedules st
        = (Return (schedules ++ replicate (length targets) []), st, tr)
        ∧ submit_calls tr = [].
Proof.
  revert schedules. induction targets as [|t targets IH]; intros schedules Hall.
  { exists []. by rewrite app_nil_r. }
  destruct (settled_schedule st t) as (tr1 & H1 & Hnone1); [apply Hall; by left|].
  destruct (IH (schedules ++ [[]])) as (tr2 & H2 & Hnone2).
  { intros target Hin. apply Hall. by right. }
  exists (tr1 ++ tr2). cbn [schedule_many_loop].
  unfold mbind at 1. unfold M_bind at 1. rewrite H1, H2. split.
  - by rewrite <- app_assoc.
  - by rewrite submit_calls_app, Hnone1, Hnone2.
Qed.

(** X17: for a backend whose [submit] marks what it submits and never
    un-submits a target, when [schedule_many] has returned, calling it again
    on the same targets from the state it left returns an empty schedule for
    each of them, submits nothing and leaves the state as it is. *)
Theorem schedule_many_idempotent targets st ls st1 tr1 :
  schedule_many workflow targets st = (Return ls, st1, tr1) →
  ∃ tr2,
    schedule_many workflow targets st1
    = (Return (replicate (length targets) []), st1, tr2)
    ∧ submit_calls tr2 = [].
Proof.
  intros Hfirst.
  apply (settled_schedule_many_loop targets [] st1).
  by eapply schedule_many_loop_leaves_settled.
Qed.

End ScheduleManyAgain.

Section NegativeCores.

Import SGE Listing.

(** X18: [cores] is not checked to be positive: with a negative [cores] and
    a positive amount of memory, [compile_script] returns a script whose
    [h_vmem] directive carries a negative amount, the floor of the
    quotient. *)
Theorem compile_script_negative_cores self target text c :
  NoDup (options target).*1 →
  (options target).*1 ⊆ OPTION_FLAGS.*1 →
  ("memory", VStr text) ∈ options target →
  ("cores", VInt c) ∈ options target →
  c < 0 →
  0 < digits_value 0 (strip_non_digits text) →
  ∃ script per_core,
    compile_script self target = Return script
    ∧ contains_line script
        ("#$ -l h_vmem=" ++ str_of_int per_core ++ strip_digits text)
    ∧ per_core < 0
    ∧ c < digits_value 0 (strip_non_digits text) - c * per_core ≤ 0.
Proof.
  intros Hnd Hflags Hmem Hcores Hc Hnumber.
  destruct (compile_script_memory_line self target text c Hnd Hflags Hmem Hcores)
    as (script & Hscript & Hline); [lia| |].
  { intros E. rewrite E in Hnumber. simpl in Hnumber. lia. }
  exists script, (digits_value 0 (strip_non_digits text) / c).
  split; [done|]. split; [done|].
  pose proof (Z.div_mod (digits_value 0 (strip_non_digits text)) c ltac:(lia)) as Hdm.
  pose proof (Z.mod_neg_bound (digits_value 0 (strip_non_digits text)) c Hc) as Hb.
  split; [nia|lia].
Qed.

End NegativeCores.

Section OneCore.

Import SGE Listing.

(** X16: with [cores=1], a [memory] value written as a number without
    leading zeros followed by a unit without digits comes out in the
    [h_vmem] directive as it went in. *)
Theorem compile_script_memory_one_core self target q unit :
  NoDup (options target).*1 →
  (options target).*1 ⊆ OPTION_FLAGS.*1 →
  ("memory", VStr (str_of_int q ++ unit)) ∈ options target →
  ("cores", VInt 1) ∈ options target →
  0 ≤ q →
  strip_non_digits unit = "" →
  ∃ script,
    compile_script self target = Return script
    ∧ contains_line script ("#$ -l h_vmem=" ++ str_of_int q ++ unit).
Proof.
  intros Hnd Hflags Hmem Hcores Hq Hunit.
  destruct (parse_printed_memory q unit Hq Hunit) as (Hnumber & Hne & Hval & Hrest).
  destruct (compile_script_memory_line self target _ 1 Hnd Hflags Hmem Hcores)
    as (script & Hscript & Hline); [done|by rewrite Hnumber|].
  exists script. split; [done|].
  by rewrite Hval, Z.div_1_r, Hrest in Hline.
Qed.

End OneCore.

Section MoreWitnesses.

Import Utils Graph Base SGE Listing Example Trial.

Local Ltac by_compute := refine (bool_decide_unpack _ _); vm_compute; exact I.

(** The scheduler takes [align] and refuses [report]: [align] stays
    submitted. *)
Lemma schedule_state_is_replay_witness :
  submit_calls (@schedule _ refusing workflow report []).2 = [align; report]
  ∧ [align] = @replay _ refusing [] (submit_calls (@schedule _ refusing workflow report []).2)
  ∧ ∀ calls d rest e,
      submit_calls (@schedule _ refusing workflow report []).2 = calls ++ d :: rest →
      (@submit _ refusing (@replay _ refusing [] calls) d).2 = Some e →
      rest = [] ∧ (Raise (Other "qsub: rejected") : outcome (list Target)) = Raise e.
Proof.
  split; [vm_compute; reflexivity|].
  apply (@schedule_state_is_replay _ refusing workflow report []
           (Raise (Other "qsub: rejected")) [align]).
  vm_compute. reflexivity.
Defined.

(** [align] is submitted already when [report] is scheduled. *)
Lemma schedule_never_resubmits_witness :
  (align ∉ submit_calls (schedule workflow report [align]).2)
  ∧ submitted [report; align] align = true.
Proof.
  apply (schedule_never_resubmits workflow listed_submit_marks listed_submit_keeps
           report [align] (Return [report]) [report; align]
           (schedule workflow report [align]).2 align).
  - vm_compute. reflexivity.
  - vm_compute. reflexivity.
Defined.

Lemma schedule_settles_witness :
  submitted [report; align] index = true ∨ should_run workflow index = false.
Proof.
  apply (schedule_settles workflow listed_submit_marks listed_submit_keeps
           report [] [align; report] [report; align]
           (schedule workflow report []).2 index).
  - vm_compute. reflexivity.
  - vm_compute. reflexivity.
  - by_compute.
Defined.

(** [align] is asked for and is a dependency of [report]. *)
Lemma schedule_many_submits_once_witness :
  NoDup (submit_calls (schedule_many workflow [align; report] []).2)
  ∧ (∀ d, submitted [] d = true →
       (d ∉ submit_calls (schedule_many workflow [align; report] []).2)
       ∧ submitted [report; align] d = true).
Proof.
  apply (schedule_many_submits_once workflow listed_submit_marks
           listed_submit_keeps [align; report] []
           (Return [[align]; [report]]) [report; align]).
  vm_compute. reflexivity.
Defined.

Lemma schedule_many_shape_witness :
  length [[align]; [report]] = length [align; report]
  ∧ concat [[align]; [report]]
    = submit_calls (schedule_many workflow [align; report] []).2.
Proof.
  apply (schedule_many_shape workflow [align; report] []
           (Return [[align]; [report]]) [report; align]).
  vm_compute. reflexivity.
Defined.

Lemma init_base_supported_options_witness :
  ((∀ t, t ∈ (targets workflow).*2 → options t = []) →
   @__init__ _ bare (Prepared workflow) = (Return workflow, []))
  ∧ (∀ t, t ∈ (targets workflow).*2 → options t ≠ [] →
     @__init__ _ bare (Prepared workflow) = (Raise TypeError, [])).
Proof.
  apply (@init_base_supported_options _ bare workflow). reflexivity.
Defined.

(** [sort] leaves its queue at [None]. *)
Lemma compile_script_option_directive_witness :
  ∃ flag,
    ("queue", flag) ∈ OPTION_FLAGS
    ∧ contains_line (returned (compile_script ops sort))
        ("#$ " ++ flag ++ format_value VNone)
    ∧ (VNone = VNone →
       contains_line (returned (compile_script ops sort)) ("#$ " ++ flag ++ "None")).
Proof.
  apply (compile_script_option_directive ops sort
           (returned (compile_script ops sort)) "queue" VNone).
  - vm_compute. reflexivity.
  - by_compute.
  - done.
Defined.

Lemma compile_script_memory_malformed_witness :
  ((∀ text, VInt 8 ≠ VStr text) →
   compile_script ops memory_as_int = Raise TypeError)
  ∧ (∀ text, VInt 8 = VStr text → strip_non_digits text = "" →
       compile_script ops memory_as_int = Raise ValueError).
Proof.
  apply (compile_script_memory_malformed ops memory_as_int (VInt 8)); by_compute.
Defined.

Lemma compile_script_memory_without_cores_witness :
  compile_script ops memory_alone = Raise (KeyError "cores").
Proof.
  apply (compile_script_memory_without_cores ops memory_alone "8g");
    [by_compute|by_compute|by_compute|vm_compute; discriminate|by_compute].
Defined.

(** [cores=0], and [cores="2"]. *)
Lemma compile_script_memory_bad_cores_witness :
  compile_script ops no_cores = Raise ZeroDivisionError
  ∧ compile_script ops cores_as_text = Raise TypeError.
Proof.
  split.
  - apply (compile_script_memory_bad_cores ops no_cores "8g" (VInt 0));
      [by_compute|by_compute|by_compute|vm_compute; discriminate|by_compute
      |reflexivity].
  - apply (compile_script_memory_bad_cores ops cores_as_text "8g" (VStr "2"));
      [by_compute|by_compute|by_compute|vm_compute; discriminate|by_compute|].
    left. by exists "2".
Defined.

(** [sort] has an int for [cores] and compiles. *)
Lemma compile_script_returns_iff_witness :
  (∃ script, compile_script ops sort = Return script)
  ↔ ∀ k v, (k, v) ∈ options sort →
      k ∈ OPTION_FLAGS.*1
      ∧ (k = "memory" →
         ∃ text c,
           v = VStr text
           ∧ strip_non_digits text ≠ ""
           ∧ assoc "cores" (options sort) = Some c
           ∧ c ≠ VInt 0).
Proof.
  apply (compile_script_returns_iff ops sort).
  intros c Hc.
  assert (NoDup (options sort).*1) as Hnd by by_compute.
  apply (assoc_lookup _ _ _ Hnd) in Hc. vm_compute in Hc.
  injection Hc as <-. by exists 1.
Defined.

Lemma compile_script_log_paths_witness :
  contains_line (returned (compile_script ops align))
    ("#$ -o " ++ log_dir (working_dir ops) ++ name align ++ ".stdout")
  ∧ contains_line (returned (compile_script ops align))
      ("#$ -e " ++ log_dir (working_dir ops) ++ name align ++ ".stderr").
Proof.
  apply (compile_script_log_paths ops align (returned (compile_script ops align))).
  - vm_compute. reflexivity.
  - vm_compute. reflexivity.
Defined.

Lemma get_job_states_malformed_witness :
  ((JB_job_number (mkJob (Some (Some "102")) None) = None
    ∨ state (mkJob (Some (Some "102")) None) = None) →
   (get_job_states call broken_job_lists_of_xml ops []).1 = Raise AttributeError)
  ∧ (∀ number text,
       JB_job_number (mkJob (Some (Some "102")) None) = Some number →
       state (mkJob (Some (Some "102")) None) = Some text →
       number = None ∨ text = None →
       (get_job_states call broken_job_lists_of_xml ops []).1
       = Raise AssertionError).
Proof.
  apply (get_job_states_malformed call broken_job_lists_of_xml ops []
           "<job_info/>" [("101", "r")] (mkJob (Some (Some "102")) None)
           [job_of ("103", "qw")]); reflexivity.
Defined.

Lemma compile_script_memory_one_core_witness :
  ∃ script,
    compile_script ops sort = Return script
    ∧ contains_line script ("#$ -l h_vmem=" ++ str_of_int 4 ++ "g").
Proof.
  apply (compile_script_memory_one_core ops sort 4 "g");
    [by_compute|by_compute|by_compute|by_compute|lia|reflexivity].
Defined.

Lemma schedule_many_idempotent_witness :
  ∃ tr2,
    schedule_many workflow [align; report] [report; align]
    = (Return (replicate (length [align; report]) []), [report; align], tr2)
    ∧ submit_calls tr2 = [].
Proof.
  apply (schedule_many_idempotent workflow listed_submit_marks listed_submit_keeps
           [align; report] [] [[align]; [report]] [report; align]
           (schedule_many workflow [align; report] []).2).
  vm_compute. reflexivity.
Defined.

Lemma compile_script_negative_cores_witness :
  ∃ script per_core,
    compile_script ops minus_cores = Return script
    ∧ contains_line script
        ("#$ -l h_vmem=" ++ str_of_int per_core ++ strip_digits "8g")
    ∧ per_core < 0
    ∧ -3 < digits_value 0 (strip_non_digits "8g") - -3 * per_core ≤ 0.
Proof.
  apply (compile_script_negative_cores ops minus_cores "8g" (-3));
    [by_compute|by_compute|by_compute|by_compute|lia|vm_compute; reflexivity].
Defined.

End MoreWitnesses.
